(** * Geospatial compliance analytics: the clustering service and its HTTP handler

    A shallow embedding of [GeospatialAnalyticsService.analyzeComplianceReports]
    (src/services/analyticService.ts) and of the [analyzeCompliance] handler
    (src/controllers/analytics/Analytics.ts), with the properties the
    specification states about them.

    Conventions of the embedding:
    - a JavaScript [number] is [NaN] or a finite value; finite doubles are
      idealised as rationals, so rounding and overflow are not represented;
    - an optional property is [undefined], [null] or a value;
    - a thrown exception is the [Throw] branch of [result];
    - [turf.distance] and the cluster labels computed by [turf.clustersDbscan]
      come from a library outside the repository: the service is stated over
      any distance function and any labelling; the density-based clustering
      the specification describes is given separately in [Module Dbscan];
    - the handler is stated over any report store and any engine. *)

From Stdlib Require Import ZArith QArith Qabs Lqa String Sorted.
From stdpp Require Import base list.

Local Open Scope nat_scope.

(** ** JavaScript values *)

Module JS.

Inductive number : Type :=
| NaN
| Num (q : Q).

Definition isNaN (x : number) : bool :=
  match x with NaN => true | Num _ => false end.

(** [a + b] *)
Definition add (a b : number) : number :=
  match a, b with
  | Num x, Num y => Num (x + y)
  | _, _ => NaN
  end.

(** [a / b]; a zero divisor has no finite quotient and yields [NaN] here *)
Definition div (a b : number) : number :=
  match a, b with
  | Num x, Num y => if Qeq_bool y 0 then NaN else Num (x / y)
  | _, _ => NaN
  end.

(** [a * b] *)
Definition mul (a b : number) : number :=
  match a, b with
  | Num x, Num y => Num (x * y)
  | _, _ => NaN
  end.

(** [Math.max(a, b)]: [NaN] as soon as one argument is [NaN] *)
Definition max (a b : number) : number :=
  match a, b with
  | Num x, Num y => if Qle_bool x y then Num y else Num x
  | _, _ => NaN
  end.

(** [a <= b], [a < b], [a >= b], [a > b]: false when an operand is [NaN] *)
Definition leb (a b : number) : bool :=
  match a, b with
  | Num x, Num y => Qle_bool x y
  | _, _ => false
  end.

Definition ltb (a b : number) : bool :=
  match a, b with
  | Num x, Num y => negb (Qle_bool y x)
  | _, _ => false
  end.

Definition geb (a b : number) : bool := leb b a.
Definition gtb (a b : number) : bool := ltb b a.

(** truthiness of a number: [0] and [NaN] are falsy *)
Definition truthy (a : number) : bool :=
  match a with
  | NaN => false
  | Num x => negb (Qeq_bool x 0)
  end.

(** [a || b] on numbers *)
Definition or_else (a b : number) : number :=
  if truthy a then a else b.

Definition of_nat (n : nat) : number := Num (inject_Z (Z.of_nat n)).

(** An optional property: [undefined], [null] or a value. *)
Inductive nullable (A : Type) : Type :=
| Undefined
| Null
| Val (a : A).
Arguments Undefined {A}.
Arguments Null {A}.
Arguments Val {A} a.

(** [v !== undefined] is [negb (is_undefined v)] *)
Definition is_undefined {A : Type} (v : nullable A) : bool :=
  match v with Undefined => true | _ => false end.

(** The global [isNaN(v)], which first converts [v] to a number:
    [undefined] becomes [NaN] and [null] becomes [0]. *)
Definition isNaN_value (v : nullable number) : bool :=
  match v with
  | Undefined => true
  | Null => false
  | Val x => isNaN x
  end.

(** A [Date] object; [InvalidDate] is the date whose time value is [NaN]. *)
Inductive Date : Type :=
| date (ms : Z)
| InvalidDate.

(** What a [throw] or a rejected promise carries: an [Error] object, by
    constructor, with its message, or any other value ([NonError], a thrown
    string for instance). *)
Inductive exn : Type :=
| Error (msg : string)
| TypeError (msg : string)
| RangeError (msg : string)
| NonError (value : string).

(** The outcome of a computation that may throw. *)
Inductive result (A : Type) : Type :=
| Ok (a : A)
| Throw (e : exn).
Arguments Ok {A} a.
Arguments Throw {A} e.

Definition bind {A B : Type} (m : result A) (k : A -> result B) : result B :=
  match m with
  | Ok a => k a
  | Throw e => Throw e
  end.

(** [Array.prototype.map] with a callback that may throw: the first
    exception, in index order, aborts the whole map. *)
Fixpoint map_from {A B : Type} (f : nat -> A -> result B) (i : nat) (l : list A)
  : result (list B) :=
  match l with
  | [] => Ok []
  | x :: l' =>
      bind (f i x) (fun y =>
      bind (map_from f (S i) l') (fun ys => Ok (y :: ys)))
  end.

Definition map_indexed {A B : Type} (f : nat -> A -> result B) (l : list A)
  : result (list B) := map_from f 0 l.

(** The instant an ISO-8601 string denotes; the rendering itself is kept
    symbolic. *)
Inductive ISOString : Type := iso (ms : Z).

(** [Date.prototype.toISOString] *)
Definition toISOString (d : Date) : result ISOString :=
  match d with
  | date ms => Ok (iso ms)
  | InvalidDate => Throw (RangeError "Invalid time value")
  end.

(** [Array.prototype.sort(cmp)]: a stable sort by the comparator (insertion
    keeps an element in front of those it does not have to follow). *)
Section Sort.
Context {A : Type} (cmp : A -> A -> Z).

Fixpoint insert_sorted (x : A) (l : list A) : list A :=
  match l with
  | [] => [x]
  | y :: l' =>
      if (cmp x y <=? 0)%Z then x :: y :: l' else y :: insert_sorted x l'
  end.

Fixpoint sort (l : list A) : list A :=
  match l with
  | [] => []
  | x :: l' => insert_sorted x (sort l')
  end.
End Sort.

End JS.

Notation "'try!' x ':=' m 'in' k" := (JS.bind m (fun x => k))
  (at level 10, x name, m at level 100, k at level 200, only parsing).

(** ** Data model (src/types/types.ts, src/types/enums.ts) *)

(** The three members of the enum [ComplianceStatus]; [UNLISTED v] is a
    [status] holding a value [v] other than these three, which a stored
    report can have: the type does not rule it out at run time. *)
Inductive ComplianceStatus : Type :=
| COMPLIANT
| NON_COMPLIANT
| FRAUDULENT
| UNLISTED (value : string).

(** [location?: { latitude?: number; longitude?: number; address?: string } | null].
    The declared type of a coordinate is [number] or [undefined]; a stored
    JSON document can also hold [null] there, which is kept representable. *)
Record Location : Type := {
  latitude : JS.nullable JS.number;
  longitude : JS.nullable JS.number;
  address : option string
}.

(** [AnalyticsComplianceReport]: the fields the service reads. The scanned
    data, image URLs, notes and OCR text are carried along untouched and are
    left out. *)
Record AnalyticsComplianceReport : Type := {
  _id : string;
  agentId : string;
  status : ComplianceStatus;
  createdAt : JS.Date;
  location : JS.nullable Location
}.

(** A GeoJSON position, [[longitude, latitude]]. *)
Definition Position : Type := (JS.number * JS.number)%type.

(** The properties the service attaches to each point feature, and the
    [cluster] property [turf.clustersDbscan] adds ([None] when absent). *)
Record PointProperties : Type := {
  reportIndex : nat;
  reportId : string;
  prop_agentId : string;
  prop_status : ComplianceStatus;
  prop_createdAt : JS.ISOString;
  cluster : option Z
}.

Record Feature : Type := {
  geometry_coordinates : Position;
  properties : PointProperties
}.

Record ClusterPoint : Type := {
  index : nat;
  coordinates : Position;
  lng : JS.number;
  lat : JS.number;
  report : option AnalyticsComplianceReport;
  clusterId : Z
}.

Record ComplianceStats : Type := {
  compliant : nat;
  non_compliant : nat;
  fraudulent : nat
}.

Record Center : Type := {
  center_latitude : JS.number;
  center_longitude : JS.number
}.

Record ClusterInfo : Type := {
  cluster_id : Z;
  size : nat;
  center : Center;
  radius_km : JS.number;
  points : list ClusterPoint;
  compliance_stats : ComplianceStats
}.

Record ClusteringParams : Type := {
  eps_km : JS.number;
  min_samples : JS.number
}.

Record ComplianceOverview : Type := {
  total_compliant : nat;
  total_non_compliant : nat;
  total_fraudulent : nat
}.

Record Summary : Type := {
  total_points : nat;
  n_clusters : nat;
  n_noise_points : nat;
  noise_percentage : JS.number;
  compliance_overview : ComplianceOverview
}.

Record AnalyticsResults : Type := {
  clustering_params : ClusteringParams;
  summary : Summary;
  clusters : list ClusterInfo;
  noise_points : list ClusterPoint;
  timestamp : JS.ISOString
}.

(** ** The clustering service (src/services/analyticService.ts) *)

Definition no_location_error : JS.exn :=
  JS.Error "No reports with valid location data found".

(** [report.location?.latitude]: [undefined] when the location is missing or
    [null]. *)
Definition location_latitude (r : AnalyticsComplianceReport) : JS.nullable JS.number :=
  match location r with
  | JS.Val loc => latitude loc
  | _ => JS.Undefined
  end.

Definition location_longitude (r : AnalyticsComplianceReport) : JS.nullable JS.number :=
  match location r with
  | JS.Val loc => longitude loc
  | _ => JS.Undefined
  end.

(** The filter callback of [reportsWithLocation]. *)
Definition has_valid_location (r : AnalyticsComplianceReport) : bool :=
  negb (JS.is_undefined (location_latitude r))
  && negb (JS.is_undefined (location_longitude r))
  && negb (JS.isNaN_value (location_latitude r))
  && negb (JS.isNaN_value (location_longitude r)).

(** [turf.point([x, y])] builds a point feature and refuses coordinates that
    are not numbers. *)
Definition turf_point (x y : JS.nullable JS.number) : JS.result Position :=
  match x, y with
  | JS.Val a, JS.Val b =>
      if JS.isNaN a || JS.isNaN b
      then JS.Throw (JS.Error "coordinates must contain numbers")
      else JS.Ok (a, b)
  | _, _ => JS.Throw (JS.Error "coordinates must contain numbers")
  end.

(** The callback of [reportsWithLocation.map]: [report.location!] on a missing
    location is a property read on [undefined] or [null]. *)
Definition to_feature (index : nat) (r : AnalyticsComplianceReport) : JS.result Feature :=
  try! loc := match location r with
              | JS.Val l => JS.Ok l
              | _ => JS.Throw (JS.TypeError "Cannot read properties of undefined")
              end in
  try! pos := turf_point (longitude loc) (latitude loc) in
  try! created := JS.toISOString (createdAt r) in
  JS.Ok {| geometry_coordinates := pos;
           properties := {| reportIndex := index;
                            reportId := _id r;
                            prop_agentId := agentId r;
                            prop_status := status r;
                            prop_createdAt := created;
                            cluster := None |} |}.

Definition set_cluster (c : option Z) (f : Feature) : Feature :=
  {| geometry_coordinates := geometry_coordinates f;
     properties := {| reportIndex := reportIndex (properties f);
                      reportId := reportId (properties f);
                      prop_agentId := prop_agentId (properties f);
                      prop_status := prop_status (properties f);
                      prop_createdAt := prop_createdAt (properties f);
                      cluster := c |} |}.

(** The [Map<number, ClusterPoint[]>] of the service, in insertion order. *)
Definition ClusterMap : Type := list (Z * list ClusterPoint).

Definition map_has (k : Z) (m : ClusterMap) : bool :=
  existsb (fun e => (fst e =? k)%Z) m.

(** [clusters.set(k, [])] for a key that is not in the map *)
Definition map_set_empty (k : Z) (m : ClusterMap) : ClusterMap :=
  m ++ [(k, [])].

(** [clusters.get(k)!.push(p)] *)
Definition map_push (k : Z) (p : ClusterPoint) (m : ClusterMap) : ClusterMap :=
  map (fun e => if (fst e =? k)%Z then (fst e, snd e ++ [p]) else e) m.

(** The [switch] on the status in the reducer of [complianceStats]; it has
    no [default], so another status leaves the counters as they are. *)
Definition tally (stats : ComplianceStats) (s : ComplianceStatus) : ComplianceStats :=
  match s with
  | COMPLIANT =>
      {| compliant := S (compliant stats); non_compliant := non_compliant stats;
         fraudulent := fraudulent stats |}
  | NON_COMPLIANT =>
      {| compliant := compliant stats; non_compliant := S (non_compliant stats);
         fraudulent := fraudulent stats |}
  | FRAUDULENT =>
      {| compliant := compliant stats; non_compliant := non_compliant stats;
         fraudulent := S (fraudulent stats) |}
  | UNLISTED _ => stats
  end.

(** The reducer of [complianceStats]: [point.report.status] on a point whose
    report is [undefined] is a [TypeError]. *)
Fixpoint cluster_compliance (stats : ComplianceStats) (pts : list ClusterPoint)
  : JS.result ComplianceStats :=
  match pts with
  | [] => JS.Ok stats
  | p :: rest =>
      match report p with
      | Some r => cluster_compliance (tally stats (status r)) rest
      | None => JS.Throw (JS.TypeError "Cannot read properties of undefined")
      end
  end.

(** The [switch] in the reducer of [overallCompliance], without [default]
    either. *)
Definition tally_overall (stats : ComplianceOverview) (r : AnalyticsComplianceReport)
  : ComplianceOverview :=
  match status r with
  | COMPLIANT =>
      {| total_compliant := S (total_compliant stats);
         total_non_compliant := total_non_compliant stats;
         total_fraudulent := total_fraudulent stats |}
  | NON_COMPLIANT =>
      {| total_compliant := total_compliant stats;
         total_non_compliant := S (total_non_compliant stats);
         total_fraudulent := total_fraudulent stats |}
  | FRAUDULENT =>
      {| total_compliant := total_compliant stats;
         total_non_compliant := total_non_compliant stats;
         total_fraudulent := S (total_fraudulent stats) |}
  | UNLISTED _ => stats
  end.

Section Service.

(** [turf.distance(from, to, { units: 'kilometers' })] on two positions *)
Variable distance : Position -> Position -> JS.number.

(** The cluster of each point as [turf.clustersDbscan] decides it, from the
    positions, the maximum distance and [minPoints]: entry [i] is the
    [cluster] property of feature [i], [None] when the property is absent. *)
Variable dbscan_labels : list Position -> JS.number -> JS.number -> list (option Z).

(** The reading of the clock behind [new Date().toISOString()] *)
Variable now : JS.ISOString.

(** [turf.clustersDbscan(points, maxDistance, { minPoints, units })]: the
    features come back in the same order, each with its [cluster]. *)
Definition clustersDbscan (fc : list Feature) (maxDistance minPoints : JS.number)
  : list Feature :=
  let labels := dbscan_labels (map geometry_coordinates fc) maxDistance minPoints in
  imap (fun i f => set_cluster (mjoin (labels !! i)) f) fc.

(** The object built for one feature in the [forEach] over the clustered
    features. *)
Definition to_cluster_point (reportsWithLocation : list AnalyticsComplianceReport)
    (index : nat) (feature : Feature) : ClusterPoint :=
  let clusterId := cluster (properties feature) in
  let coordinates := geometry_coordinates feature in
  {| index := index;
     coordinates := coordinates;
     lng := fst coordinates;
     lat := snd coordinates;
     report := reportsWithLocation !! reportIndex (properties feature);
     clusterId := default (-1)%Z clusterId |}.

(** One turn of that [forEach], on the map of clusters and the noise list. *)
Definition place (st : ClusterMap * list ClusterPoint) (cp : option Z * ClusterPoint)
  : ClusterMap * list ClusterPoint :=
  let '(clusters, noisePoints) := st in
  let '(clusterId, clusterPoint) := cp in
  match clusterId with
  | None => (clusters, noisePoints ++ [clusterPoint])
  | Some k =>
      if (k =? -1)%Z then (clusters, noisePoints ++ [clusterPoint])
      else
        let clusters' :=
          if map_has k clusters then clusters else map_set_empty k clusters in
        (map_push k clusterPoint clusters', noisePoints)
  end.

(** The features in order, each as the [clusterId] read from it and the
    point built for it. *)
Definition labelled_points (reportsWithLocation : list AnalyticsComplianceReport)
    (features : list Feature) : list (option Z * ClusterPoint) :=
  imap (fun i f => (cluster (properties f),
                    to_cluster_point reportsWithLocation i f)) features.

Definition group_points (reportsWithLocation : list AnalyticsComplianceReport)
    (features : list Feature) : ClusterMap * list ClusterPoint :=
  fold_left place (labelled_points reportsWithLocation features) ([], []).

(** The loop computing [maxRadius] for a cluster. *)
Fixpoint max_radius (centerLng centerLat : JS.number) (maxRadius : JS.number)
    (pts : list ClusterPoint) : JS.result JS.number :=
  match pts with
  | [] => JS.Ok maxRadius
  | point :: rest =>
      try! from := turf_point (JS.Val centerLng) (JS.Val centerLat) in
      try! to := turf_point (JS.Val (lng point)) (JS.Val (lat point)) in
      max_radius centerLng centerLat (JS.max maxRadius (distance from to)) rest
  end.

(** The callback of [Array.from(clusters.entries()).map]. *)
Definition cluster_info (entry : Z * list ClusterPoint) : JS.result ClusterInfo :=
  let '(clusterId, pts) := entry in
  let centerLat :=
    JS.div (fold_left (fun sum p => JS.add sum (lat p)) pts (JS.Num 0))
           (JS.of_nat (length pts)) in
  let centerLng :=
    JS.div (fold_left (fun sum p => JS.add sum (lng p)) pts (JS.Num 0))
           (JS.of_nat (length pts)) in
  try! maxRadius := max_radius centerLng centerLat (JS.Num 0) pts in
  try! complianceStats :=
    cluster_compliance {| compliant := 0; non_compliant := 0; fraudulent := 0 |} pts in
  JS.Ok {| cluster_id := clusterId;
           size := length pts;
           center := {| center_latitude := centerLat; center_longitude := centerLng |};
           radius_km := maxRadius;
           points := pts;
           compliance_stats := complianceStats |}.

(** The comparator of [clusterInfos.sort]: [b.size - a.size]. *)
Definition by_size_desc (a b : ClusterInfo) : Z :=
  (Z.of_nat (size b) - Z.of_nat (size a))%Z.

(** [analyzeComplianceReports(reports, epsKm, minSamples)]; the callers in
    the repository pass both parameters. *)
Definition analyzeComplianceReports (reports : list AnalyticsComplianceReport)
    (epsKm minSamples : JS.number) : JS.result AnalyticsResults :=
  let reportsWithLocation := List.filter has_valid_location reports in
  if (length reportsWithLocation =? 0)%nat then JS.Throw no_location_error
  else
    try! geoJsonPoints := JS.map_indexed to_feature reportsWithLocation in
    let clusteredPoints := clustersDbscan geoJsonPoints epsKm minSamples in
    let '(clusters, noisePoints) := group_points reportsWithLocation clusteredPoints in
    try! clusterInfos := JS.map_indexed (fun _ => cluster_info) clusters in
    let sorted := JS.sort by_size_desc clusterInfos in
    let overallCompliance :=
      fold_left tally_overall reportsWithLocation
        {| total_compliant := 0; total_non_compliant := 0; total_fraudulent := 0 |} in
    JS.Ok {| clustering_params := {| eps_km := epsKm; min_samples := minSamples |};
             summary :=
               {| total_points := length reportsWithLocation;
                  n_clusters := length clusters;
                  n_noise_points := length noisePoints;
                  noise_percentage :=
                    JS.mul (JS.div (JS.of_nat (length noisePoints))
                                   (JS.of_nat (length reportsWithLocation)))
                           (JS.Num 100);
                  compliance_overview := overallCompliance |};
             clusters := sorted;
             noise_points := noisePoints;
             timestamp := now |}.

End Service.

(** ** The computable instance used to run the model

    A distance on positions with rational coordinates: kilometres per degree
    times the sum of the differences in latitude and longitude. On one
    meridian it is the length of the arc between the two points, which is
    also their great-circle distance. *)

Definition km_per_degree : Q := 111195 # 1000.

Definition grid_distance (p q : Position) : JS.number :=
  match p, q with
  | (JS.Num x1, JS.Num y1), (JS.Num x2, JS.Num y2) =>
      JS.Num (km_per_degree * (Qabs (x1 - x2) + Qabs (y1 - y2)))
  | _, _ => JS.NaN
  end.

(** ** Density-based clustering *)

(** The clustering is done by [turf.clustersDbscan], a library whose code is
    not part of the repository. [Module Dbscan] is the algorithm of section
    4.1 of the specification, over any distance function. *)
Module Dbscan.
Section Dbscan.

Variable distance : Position -> Position -> JS.number.
Variable pts : list Position.
Variable epsilonKm minPoints : JS.number.

(** Modelled from the spec: the code of [turf.clustersDbscan] is missing.
    Step 2 and 3: point [j] is within [epsilonKm] of point [i]. *)
Definition within (i j : nat) : bool :=
  match pts !! i, pts !! j with
  | Some p, Some q => JS.leb (distance p q) epsilonKm
  | _, _ => false
  end.

(** Modelled from the spec: the code of [turf.clustersDbscan] is missing.
    Step 3: the neighbourhood of point [i], the indices of all the points
    within [epsilonKm] of it, itself included, in input order. *)
Definition neighborhood (i : nat) : list nat :=
  List.filter (within i) (seq 0 (length pts)).

(** Modelled from the spec: the code of [turf.clustersDbscan] is missing.
    Step 4: a core point has at least [minPoints] points in its
    neighbourhood. *)
Definition is_core (i : nat) : bool :=
  JS.geb (JS.of_nat (length (neighborhood i))) minPoints.

(** Modelled from the spec: the code of [turf.clustersDbscan] is missing.
    Step 5, as the worklist of section 9: absorb the points of the worklist
    into cluster [c]; an absorbed core point adds its neighbourhood to the
    worklist; a point already in a cluster is not reassigned. Every point is
    absorbed at most once and adds at most its neighbourhood, which bounds
    the number of turns ([fuel]). *)
Fixpoint expand (fuel : nat) (c : nat) (work : list nat) (labels : list (option nat))
  : list (option nat) :=
  match fuel with
  | 0 => labels
  | S fuel' =>
      match work with
      | [] => labels
      | j :: rest =>
          match labels !! j with
          | Some None =>
              let labels' := <[j := Some c]> labels in
              if is_core j
              then expand fuel' c (neighborhood j ++ rest) labels'
              else expand fuel' c rest labels'
          | _ => expand fuel' c rest labels
          end
      end
  end.

Definition enough_fuel : nat := S (length pts) * S (length pts).

(** Modelled from the spec: the code of [turf.clustersDbscan] is missing.
    Steps 5 and 7: one turn of the scan over the points in input order; a
    core point not yet in a cluster seeds the next cluster, numbered from 0
    in the order of discovery. *)
Definition visit (st : list (option nat) * nat) (i : nat) : list (option nat) * nat :=
  let '(labels, next) := st in
  match labels !! i with
  | Some None =>
      if is_core i then (expand enough_fuel next [i] labels, S next) else st
  | _ => st
  end.

(** Modelled from the spec: the code of [turf.clustersDbscan] is missing.
    The whole scan; step 6: what it leaves without a cluster is noise. *)
Definition scan : list (option nat) * nat :=
  fold_left visit (seq 0 (length pts)) (replicate (length pts) None, 0).

(** Modelled from the spec: the code of [turf.clustersDbscan] is missing.
    The [cluster] property of each point; noise has none. *)
Definition labels : list (option Z) :=
  map (fun l => Z.of_nat <$> l) (fst scan).

(** *** Vocabulary about a labelling in progress *)

Definition is_free (l : option nat) : bool :=
  match l with None => true | Some _ => false end.

(** The number of points not yet in a cluster. *)
Definition free (ls : list (option nat)) : nat :=
  length (List.filter is_free ls).

Definition assigned (ls : list (option nat)) (j : nat) : Prop :=
  exists c, ls !! j = Some (Some c).

(** A core point, or a point in the neighbourhood of a core point. *)
Definition reachable (j : nat) : Prop :=
  is_core j = true \/ exists q, is_core q = true /\ j ∈ neighborhood q.

(** Every neighbour of a clustered core point is clustered or waits in the
    worklist. *)
Definition closed (ls : list (option nat)) (work : list nat) : Prop :=
  forall q p, assigned ls q -> is_core q = true -> p ∈ neighborhood q ->
              assigned ls p \/ p ∈ work.

(** The state of the scan once the points before [i] have been visited. *)
Definition scanned (i : nat) (st : list (option nat) * nat) : Prop :=
  length (fst st) = length pts /\
  (forall j, j < i -> is_core j = true -> assigned (fst st) j) /\
  closed (fst st) [] /\
  (forall j c, fst st !! j = Some (Some c) ->
     reachable j /\ c < snd st /\
     exists s, is_core s = true /\ fst st !! s = Some (Some c) /\
               forall p, p ∈ neighborhood s ->
                         exists c', fst st !! p = Some (Some c') /\ c' <= c).

End Dbscan.
End Dbscan.

(** The service with the clustering of [Module Dbscan] in the place of
    [turf.clustersDbscan]. *)
Definition analyze (distance : Position -> Position -> JS.number) (now : JS.ISOString)
    (reports : list AnalyticsComplianceReport) (epsKm minSamples : JS.number)
  : JS.result AnalyticsResults :=
  analyzeComplianceReports distance (Dbscan.labels distance) now reports epsKm minSamples.

(** ** The HTTP handler (src/controllers/analytics/Analytics.ts) *)

Module Handler.

(** The query string of a request. [maxDistance] and [minPoints] stand for
    [Number(req.query.maxDistance)] and [Number(req.query.minPoints)]:
    [NaN] when the parameter is missing or not numeric. *)
Record Query : Type := {
  maxDistance : JS.number;
  minPoints : JS.number;
  agentId : option string
}.

Inductive Body : Type :=
| InvalidParameters
| NoReports
| Completed (data : AnalyticsResults) (maxDistance minPoints : JS.number) (agentId : string)
| Failed (message : string).

Record Response : Type := {
  http_status : nat;
  body : Body
}.

(** One call of [GeospatialAnalyticsService.analyzeComplianceReports]. *)
Definition EngineCall : Type :=
  (list AnalyticsComplianceReport * JS.number * JS.number)%type.

(** [error instanceof Error ? error.message : 'Unknown error'] *)
Definition message (e : JS.exn) : string :=
  match e with
  | JS.Error msg | JS.TypeError msg | JS.RangeError msg => msg
  | JS.NonError _ => "Unknown error"
  end.

(** [Number(req.query.maxDistance) || 1000] *)
Definition parsed_maxDistance (q : Query) : JS.number :=
  JS.or_else (maxDistance q) (JS.Num 1000).

(** [Number(req.query.minPoints) || 3] *)
Definition parsed_minPoints (q : Query) : JS.number :=
  JS.or_else (minPoints q) (JS.Num 3).

(** The filter callback on the stored reports: a location object whose
    latitude and longitude have type [number]. *)
Definition has_numeric_location (report : AnalyticsComplianceReport) : bool :=
  match location report with
  | JS.Val loc =>
      match latitude loc, longitude loc with
      | JS.Val _, JS.Val _ => true
      | _, _ => false
      end
  | _ => false
  end.

Section Handler.

(** [query.getMany()] on the report store, for the agent asked for if
    any; the query may fail. *)
Variable getMany : option string -> JS.result (list AnalyticsComplianceReport).

(** The clustering engine the handler calls. *)
Variable engine :
  list AnalyticsComplianceReport -> JS.number -> JS.number -> JS.result AnalyticsResults.

(** The response of [analyzeCompliance] and the calls it made to the
    engine. A response sent without [res.status] has status 200. *)
Definition analyzeCompliance (q : Query) : Response * list EngineCall :=
  let maxDistance := parsed_maxDistance q in
  let minPoints := parsed_minPoints q in
  if JS.leb maxDistance (JS.Num 0) || JS.ltb minPoints (JS.Num 1)
  then ({| http_status := 400; body := InvalidParameters |}, [])
  else
    let agent :=
      match agentId q with
      | Some a => if String.eqb a "" then None else Some a
      | None => None
      end in
    match getMany agent with
    | JS.Throw e => ({| http_status := 500; body := Failed (message e) |}, [])
    | JS.Ok reports =>
        if (length reports =? 0)%nat
        then ({| http_status := 200; body := NoReports |}, [])
        else
          let analyticsReports := List.filter has_numeric_location reports in
          let call := (analyticsReports, maxDistance, minPoints) in
          match engine analyticsReports maxDistance minPoints with
          | JS.Ok results =>
              ({| http_status := 200;
                  body := Completed results maxDistance minPoints
                            (default "all"%string agent) |}, [call])
          | JS.Throw e =>
              ({| http_status := 500; body := Failed (message e) |}, [call])
          end
    end.

End Handler.

End Handler.

(** ** Sample data *)

Definition sample_report (id : string) (st : ComplianceStatus) (la lo : Q)
  : AnalyticsComplianceReport :=
  {| _id := id; agentId := "agent-1"; status := st; createdAt := JS.date 1736899200000;
     location := JS.Val {| latitude := JS.Val (JS.Num la); longitude := JS.Val (JS.Num lo);
                           address := None |} |}.

Definition sample_without_location : AnalyticsComplianceReport :=
  {| _id := "no-location-id"; agentId := "agent-1"; status := COMPLIANT;
     createdAt := JS.date 1736899200000; location := JS.Null |}.

(** A report read from a document whose latitude is [null]. *)
Definition sample_null_latitude : AnalyticsComplianceReport :=
  {| _id := "null-latitude-id"; agentId := "agent-1"; status := COMPLIANT;
     createdAt := JS.date 1736899200000;
     location := JS.Val {| latitude := JS.Null; longitude := JS.Val (JS.Num 121);
                           address := None |} |}.

(** Seven reports on one meridian, about 1.1 km apart from one position to the
    next, with two reports at each end position. *)
Definition chain_reports : list AnalyticsComplianceReport :=
  [ sample_report "x1" COMPLIANT 0 121; sample_report "x2" COMPLIANT 0 121;
    sample_report "p1" NON_COMPLIANT (1 # 100) 121; sample_report "y" COMPLIANT (2 # 100) 121;
    sample_report "p2" FRAUDULENT (3 # 100) 121; sample_report "z1" COMPLIANT (4 # 100) 121;
    sample_report "z2" COMPLIANT (4 # 100) 121 ].

(** Two reports taken at the same place. *)
Definition twin_reports : list AnalyticsComplianceReport :=
  [ sample_report "a" COMPLIANT (145995 # 10000) (1209842 # 10000);
    sample_report "b" NON_COMPLIANT (145995 # 10000) (1209842 # 10000) ].

(** On one meridian: a report that is within reach of [c1] only, three
    reports at one place far away, then [c1] and a report beyond it. *)
Definition border_first_reports : list AnalyticsComplianceReport :=
  [ sample_report "b" COMPLIANT (10 # 100) 121;
    sample_report "a1" COMPLIANT 0 121; sample_report "a2" COMPLIANT 0 121;
    sample_report "a3" COMPLIANT 0 121;
    sample_report "c1" COMPLIANT (11 # 100) 121; sample_report "c2" COMPLIANT (12 # 100) 121 ].

(** On one meridian, 0.01 degree (about 1.1 km) from one place to the next:
    two reports at the first place, three at the second, two at the third
    and at the fourth, and a lone report further away; the reports of the
    first three places are interleaved. *)
Definition tiered_reports : list AnalyticsComplianceReport :=
  [ sample_report "a1" COMPLIANT 0 121; sample_report "b1" COMPLIANT (1 # 100) 121;
    sample_report "b2" NON_COMPLIANT (1 # 100) 121; sample_report "a2" COMPLIANT 0 121;
    sample_report "c1" COMPLIANT (2 # 100) 121; sample_report "c2" FRAUDULENT (2 # 100) 121;
    sample_report "b3" COMPLIANT (1 # 100) 121; sample_report "d1" COMPLIANT (3 # 100) 121;
    sample_report "d2" COMPLIANT (3 # 100) 121; sample_report "e" COMPLIANT (5 # 100) 121 ].

(** Three reports taken at one place, the second with a status that is not
    a member of the enum. *)
Definition pending_reports : list AnalyticsComplianceReport :=
  [ sample_report "q1" COMPLIANT 0 121; sample_report "q2" (UNLISTED "PENDING") 0 121;
    sample_report "q3" FRAUDULENT 0 121 ].

Definition mixed_reports : list AnalyticsComplianceReport :=
  sample_without_location :: chain_reports.

Definition sample_now : JS.ISOString := JS.iso 1736985600000.

(** ** Vocabulary of the statements *)

(** A label that sends a point to the noise list. *)
Definition is_noise_label (c : option Z) : bool :=
  match c with
  | None => true
  | Some k => (k =? -1)%Z
  end.

Definition has_label (k : Z) (x : option Z * ClusterPoint) : bool :=
  match fst x with
  | Some k' => (k' =? k)%Z
  | None => false
  end.

(** The points labelled [k], in input order. *)
Definition members (k : Z) (l : list (option Z * ClusterPoint)) : list ClusterPoint :=
  map snd (List.filter (has_label k) l).

Definition noise_of (l : list (option Z * ClusterPoint)) : list ClusterPoint :=
  map snd (List.filter (fun x => is_noise_label (fst x)) l).

Definition add_key (ks : list Z) (x : option Z * ClusterPoint) : list Z :=
  match fst x with
  | Some k =>
      if (k =? -1)%Z || existsb (fun k' => (k' =? k)%Z) ks then ks else ks ++ [k]
  | None => ks
  end.

(** The cluster labels of a list of labelled points, each once, in the order
    of their first point. *)
Definition keys (l : list (option Z * ClusterPoint)) : list Z :=
  fold_left add_key l [].

(** Every point the result returns: those of the clusters, then the noise. *)
Definition all_points (r : AnalyticsResults) : list ClusterPoint :=
  concat (map points (clusters r)) ++ noise_points r.

(** A report with both coordinates present and numeric. *)
Definition geolocated (r : AnalyticsComplianceReport) : Prop :=
  exists loc la lo,
    location r = JS.Val loc /\
    latitude loc = JS.Val (JS.Num la) /\
    longitude loc = JS.Val (JS.Num lo).

(** A coordinate that the filter of the service lets through: anything but
    [undefined] and [NaN], so a number or [null]. *)
Definition defined_not_nan (c : JS.nullable JS.number) : Prop :=
  c = JS.Null \/ exists q, c = JS.Val (JS.Num q).

Definition kept_by_filter (r : AnalyticsComplianceReport) : Prop :=
  exists loc,
    location r = JS.Val loc /\
    defined_not_nan (latitude loc) /\
    defined_not_nan (longitude loc).

(** A report whose coordinates have their declared type: none is [null]. *)
Definition typed (r : AnalyticsComplianceReport) : Prop :=
  match location r with
  | JS.Val loc => latitude loc <> JS.Null /\ longitude loc <> JS.Null
  | _ => True
  end.

(** A coordinate that is [undefined], [null] or [NaN]. *)
Definition bad_coordinate (c : JS.nullable JS.number) : Prop :=
  c = JS.Undefined \/ c = JS.Null \/ c = JS.Val JS.NaN.

(** A report without a usable position: no location object, or a latitude or
    longitude that is [undefined], [null] or [NaN]. *)
Definition lacks_position (r : AnalyticsComplianceReport) : Prop :=
  match location r with
  | JS.Val loc => bad_coordinate (latitude loc) \/ bad_coordinate (longitude loc)
  | _ => True
  end.

Definition sumQ (xs : list Q) : Q := fold_right Qplus 0%Q xs.

(** The arithmetic mean of a list of rationals. *)
Definition mean (xs : list Q) : Q := (sumQ xs / inject_Z (Z.of_nat (length xs)))%Q.

(** The position in the filtered input of the first point of a cluster. *)
Definition first_index (c : ClusterInfo) : option nat := index <$> head (points c).

(** Largest first. *)
Definition size_desc (a b : ClusterInfo) : Prop := size b <= size a.

Definition of_size (s : nat) (c : ClusterInfo) : bool := size c =? s.

(** One point comes before the other in the filtered input. *)
Definition before (a b : option ClusterPoint) : Prop :=
  match a, b with
  | Some p, Some q => index p < index q
  | _, _ => False
  end.

(** A well-formed batch: every report has coordinates of the declared type
    and a valid creation date. *)
Definition well_formed (reports : list AnalyticsComplianceReport) : Prop :=
  forall rep, rep ∈ reports -> typed rep /\ exists ms, createdAt rep = JS.date ms.

(** The number of returned points within [epsKm] of [p]. *)
Definition neighbours_in_result (distance : Position -> Position -> JS.number)
    (epsKm : JS.number) (r : AnalyticsResults) (p : ClusterPoint) : nat :=
  length (List.filter (fun q => JS.leb (distance (coordinates p) (coordinates q)) epsKm)
                      (all_points r)).

(** ** Vocabulary of the statements on the statistics and on the handler *)

Definition has_status (st : ComplianceStatus) (rep : AnalyticsComplianceReport) : bool :=
  match status rep, st with
  | COMPLIANT, COMPLIANT | NON_COMPLIANT, NON_COMPLIANT | FRAUDULENT, FRAUDULENT => true
  | UNLISTED v, UNLISTED w => String.eqb v w
  | _, _ => false
  end.

(** The number of reports with a given status. *)
Definition count_status (st : ComplianceStatus) (reps : list AnalyticsComplianceReport) : nat :=
  length (List.filter (has_status st) reps).

(** A report whose status is none of the three members of the enum. *)
Definition unlisted (rep : AnalyticsComplianceReport) : bool :=
  match status rep with
  | UNLISTED _ => true
  | _ => false
  end.

Definition count_unlisted (reps : list AnalyticsComplianceReport) : nat :=
  length (List.filter unlisted reps).

(** The reports carried by a list of points. *)
Definition reports_of (pts : list ClusterPoint) : list AnalyticsComplianceReport :=
  omap report pts.

(** [agentId && typeof agentId === 'string']: the agent the store is asked
    for; an empty string asks for every agent. *)
Definition requested_agent (q : Handler.Query) : option string :=
  match Handler.agentId q with
  | Some a => if String.eqb a "" then None else Some a
  | None => None
  end.

(** The negation of [maxDistance <= 0 || minPoints < 1] on the parsed
    parameters. *)
Definition valid_parameters (q : Handler.Query) : bool :=
  negb (JS.leb (Handler.parsed_maxDistance q) (JS.Num 0)
        || JS.ltb (Handler.parsed_minPoints q) (JS.Num 1)).

(** A stored report the handler and then the service both keep: a location
    whose latitude and longitude are numbers other than [NaN]. *)
Definition analysed (rep : AnalyticsComplianceReport) : bool :=
  Handler.has_numeric_location rep && has_valid_location rep.

(** A store that answers every query with the same reports. *)
Definition fixed_store (reports : list AnalyticsComplianceReport)
  : option string -> JS.result (list AnalyticsComplianceReport) :=
  fun _ => JS.Ok reports.

(** A report whose creation date is not a valid date. *)
Definition sample_invalid_date : AnalyticsComplianceReport :=
  {| _id := "invalid-date-id"; agentId := "agent-1"; status := COMPLIANT;
     createdAt := JS.InvalidDate;
     location := JS.Val {| latitude := JS.Val (JS.Num 0); longitude := JS.Val (JS.Num 121);
                           address := None |} |}.

(** A report whose latitude is [NaN]. *)
Definition sample_nan_latitude : AnalyticsComplianceReport :=
  {| _id := "nan-latitude-id"; agentId := "agent-1"; status := COMPLIANT;
     createdAt := JS.date 1736899200000;
     location := JS.Val {| latitude := JS.Val JS.NaN; longitude := JS.Val (JS.Num 121);
                           address := None |} |}.

Definition sample_query : Handler.Query :=
  {| Handler.maxDistance := JS.Num (3 # 2); Handler.minPoints := JS.Num 4;
     Handler.agentId := None |}.

(** * Properties *)

(** ** Facts about the JavaScript layer *)

Section JsFacts.

Lemma bind_ok {A B : Type} (m : JS.result A) (k : A -> JS.result B) (b : B) :
  JS.bind m k = JS.Ok b -> exists a, m = JS.Ok a /\ k a = JS.Ok b.
Proof. destruct m as [a|e]; simpl; [eauto | discriminate]. Qed.

Lemma bind_throw {A B : Type} (m : JS.result A) (k : A -> JS.result B) (e : JS.exn) :
  JS.bind m k = JS.Throw e ->
  m = JS.Throw e \/ exists a, m = JS.Ok a /\ k a = JS.Throw e.
Proof. destruct m as [a|e']; simpl; [eauto | intros [= ->]; auto]. Qed.

Lemma map_from_ok {A B : Type} (f : nat -> A -> JS.result B) (l : list A) :
  forall i ys,
    JS.map_from f i l = JS.Ok ys ->
    length ys = length l /\
    forall j x, l !! j = Some x ->
      exists y, ys !! j = Some y /\ f (i + j) x = JS.Ok y.
Proof.
  induction l as [|x l IH]; intros i ys H; simpl in H.
  - injection H as <-. split; [reflexivity|]. intros j x Hj. discriminate.
  - apply bind_ok in H as (y & Hy & H).
    apply bind_ok in H as (ys' & Hys & H). injection H as <-.
    destruct (IH _ _ Hys) as [Hlen Hlook]. split; [simpl; congruence|].
    intros [|j] x' Hj; simpl in Hj.
    + injection Hj as <-. exists y. rewrite Nat.add_0_r. auto.
    + destruct (Hlook _ _ Hj) as (y' & Hy' & Hf). exists y'.
      split; [exact Hy'|]. replace (i + S j) with (S i + j) by lia. exact Hf.
Qed.

Lemma map_from_throw {A B : Type} (f : nat -> A -> JS.result B) (l : list A) :
  forall i e,
    JS.map_from f i l = JS.Throw e ->
    exists j x, l !! j = Some x /\ f (i + j) x = JS.Throw e.
Proof.
  induction l as [|x l IH]; intros i e H; simpl in H; [discriminate|].
  apply bind_throw in H as [H | (y & Hy & H)].
  - exists 0, x. rewrite Nat.add_0_r. auto.
  - apply bind_throw in H as [H | (ys & _ & H)]; [|discriminate].
    destruct (IH _ _ H) as (j & x' & Hj & Hf). exists (S j), x'.
    split; [exact Hj|]. replace (i + S j) with (S i + j) by lia. exact Hf.
Qed.

Lemma map_from_total {A B : Type} (f : nat -> A -> JS.result B) (l : list A) :
  forall i,
    (forall j x, l !! j = Some x -> exists y, f (i + j) x = JS.Ok y) ->
    exists ys, JS.map_from f i l = JS.Ok ys.
Proof.
  induction l as [|x l IH]; intros i H; simpl; [eauto|].
  destruct (H 0 x eq_refl) as (y & Hy). rewrite Nat.add_0_r in Hy. rewrite Hy. simpl.
  destruct (IH (S i)) as (ys & Hys).
  - intros j x' Hj. replace (S i + j) with (i + S j) by lia. apply H. exact Hj.
  - rewrite Hys. simpl. eauto.
Qed.

End JsFacts.

(** ** Grouping the labelled points *)

Section Grouping.

Implicit Types (l : list (option Z * ClusterPoint)) (ks : list Z).

Lemma keys_snoc l x : keys (l ++ [x]) = add_key (keys l) x.
Proof. unfold keys. rewrite fold_left_app. reflexivity. Qed.

Lemma members_snoc k l x :
  members k (l ++ [x]) = members k l ++ (if has_label k x then [snd x] else []).
Proof.
  unfold members. rewrite List.filter_app, map_app. simpl.
  destruct (has_label k x); reflexivity.
Qed.

Lemma noise_of_snoc l x :
  noise_of (l ++ [x]) = noise_of l ++ (if is_noise_label (fst x) then [snd x] else []).
Proof.
  unfold noise_of. rewrite List.filter_app, map_app. simpl.
  destruct (is_noise_label (fst x)); reflexivity.
Qed.

Lemma existsb_key ks k : existsb (fun k' => (k' =? k)%Z) ks = true <-> k ∈ ks.
Proof.
  rewrite existsb_exists. split.
  - intros (k' & Hin & Heq). apply Z.eqb_eq in Heq as ->. by apply list_elem_of_In.
  - intros Hin. exists k. split; [by apply list_elem_of_In | apply Z.eqb_refl].
Qed.

Lemma elem_of_add_key ks x k :
  k ∈ add_key ks x <-> k ∈ ks \/ (fst x = Some k /\ k <> (-1)%Z).
Proof.
  unfold add_key. destruct (fst x) as [k'|]; [|naive_solver].
  destruct (Z.eqb_spec k' (-1)); simpl; [naive_solver|].
  destruct (existsb _ ks) eqn:E.
  - apply existsb_key in E. naive_solver.
  - rewrite elem_of_app, list_elem_of_singleton. naive_solver.
Qed.

Lemma elem_of_keys l k :
  k ∈ keys l <-> k <> (-1)%Z /\ exists x, x ∈ l /\ fst x = Some k.
Proof.
  induction l as [|x l IH] using rev_ind.
  - unfold keys; simpl. split; [by intros ?%elem_of_nil|].
    intros (_ & x & ?%elem_of_nil & _). done.
  - rewrite keys_snoc, elem_of_add_key, IH. split.
    + intros [(Hk & y & Hy & Hf) | (Hf & Hk)]; (split; [done|]).
      * exists y. rewrite elem_of_app. auto.
      * exists x. rewrite elem_of_app, list_elem_of_singleton. auto.
    + intros (Hk & y & Hy & Hf). apply elem_of_app in Hy as [Hy|Hy].
      * left. eauto.
      * apply list_elem_of_singleton in Hy as ->. auto.
Qed.

Lemma NoDup_keys l : NoDup (keys l).
Proof.
  induction l as [|x l IH] using rev_ind; [constructor|].
  rewrite keys_snoc. unfold add_key. destruct (fst x) as [k|]; [|done].
  destruct (Z.eqb_spec k (-1)); simpl; [done|].
  destruct (existsb _ (keys l)) eqn:E; [done|].
  apply NoDup_app. split; [done|]. split; [|apply NoDup_singleton].
  intros k' Hk' ->%list_elem_of_singleton.
  apply existsb_key in Hk'. congruence.
Qed.

Lemma members_nil_iff k l :
  members k l = [] <-> forall x, x ∈ l -> fst x <> Some k.
Proof.
  unfold members. induction l as [|x l IH]; simpl.
  - split; [intros _ x ?%elem_of_nil; done | done].
  - unfold has_label at 1. destruct (fst x) as [k'|] eqn:E.
    + destruct (Z.eqb_spec k' k) as [->|Hne]; simpl.
      * split; [done|]. intros H. exfalso. apply (H x); [left | done].
      * rewrite IH. split.
        -- intros H y [->|Hy]%elem_of_cons; [congruence | by apply H].
        -- intros H y Hy. apply H. by right.
    + rewrite IH. split.
      * intros H y [->|Hy]%elem_of_cons; [congruence | by apply H].
      * intros H y Hy. apply H. by right.
Qed.

Lemma map_has_keys (f : Z -> list ClusterPoint) ks k :
  map_has k (map (fun k' => (k', f k')) ks) = existsb (fun k' => (k' =? k)%Z) ks.
Proof. unfold map_has. induction ks as [|k' ks IH]; simpl; [done | by rewrite IH]. Qed.

(** The state of the [forEach] after the labelled points [l]: one entry per
    label, in the order of first appearance, holding the points of that
    label in input order; and the noise in input order. *)
Lemma group_fold l :
  fold_left place l ([], []) = (map (fun k => (k, members k l)) (keys l), noise_of l).
Proof.
  induction l as [|[c p] l IH] using rev_ind; [reflexivity|].
  rewrite fold_left_app, IH. simpl. rewrite keys_snoc, noise_of_snoc. simpl.
  assert (Hkeep : forall k, k ∈ keys l -> c <> Some k ->
            members k (l ++ [(c, p)]) = members k l).
  { intros k Hk Hc. rewrite members_snoc. unfold has_label; simpl.
    destruct c as [k'|]; [|by rewrite app_nil_r].
    destruct (Z.eqb_spec k' k); [congruence | by rewrite app_nil_r]. }
  assert (Hnoise : forall k, k ∈ keys l -> is_noise_label c = true -> c <> Some k).
  { intros k Hk Hn ->. simpl in Hn. apply Z.eqb_eq in Hn as ->.
    apply elem_of_keys in Hk as [? _]. done. }
  unfold add_key; simpl. destruct c as [k|]; simpl.
  - destruct (Z.eqb_spec k (-1)) as [->|Hk]; simpl.
    + f_equal. apply map_ext_in. intros k Hin%list_elem_of_In. f_equal.
      symmetry. apply Hkeep; [done|]. by apply Hnoise.
    + rewrite app_nil_r. f_equal. rewrite map_has_keys.
      destruct (existsb _ (keys l)) eqn:E.
      * unfold map_push. rewrite map_map. apply map_ext_in.
        intros k' Hin. simpl. rewrite members_snoc. unfold has_label; simpl.
        rewrite (Z.eqb_sym k k'). destruct (k' =? k)%Z; [done | by rewrite app_nil_r].
      * unfold map_set_empty, map_push. rewrite !map_app, map_map. simpl.
        rewrite Z.eqb_refl. f_equal.
        -- apply map_ext_in. intros k' Hin%list_elem_of_In. simpl.
           destruct (Z.eqb_spec k' k) as [->|Hne].
           ++ apply existsb_key in Hin. congruence.
           ++ f_equal. symmetry. apply Hkeep; [done | congruence].
        -- f_equal. f_equal. rewrite members_snoc. unfold has_label; simpl.
           rewrite Z.eqb_refl.
           assert (members k l = []) as ->; [|done].
           apply members_nil_iff. intros x Hx Hfx.
           assert (k ∈ keys l) as Hin by (apply elem_of_keys; eauto).
           apply existsb_key in Hin. congruence.
  - rewrite <- (map_id (keys l)) at 2. f_equal.
    rewrite map_id. apply map_ext_in. intros k Hin%list_elem_of_In. f_equal.
    symmetry. apply Hkeep; done.
Qed.

End Grouping.

(** ** Sorting by size *)

Section SortFacts.

Lemma insert_sorted_perm {A : Type} (cmp : A -> A -> Z) (x : A) (l : list A) :
  JS.insert_sorted cmp x l ≡ₚ x :: l.
Proof.
  induction l as [|y l IH]; simpl; [done|].
  destruct (cmp x y <=? 0)%Z; [done|].
  rewrite IH. apply Permutation_swap.
Qed.

Lemma sort_perm {A : Type} (cmp : A -> A -> Z) (l : list A) :
  JS.sort cmp l ≡ₚ l.
Proof.
  induction l as [|x l IH]; simpl; [done|].
  rewrite insert_sorted_perm. by rewrite IH.
Qed.

Lemma insert_by_size_sorted x l :
  StronglySorted size_desc l ->
  StronglySorted size_desc (JS.insert_sorted by_size_desc x l).
Proof.
  induction 1 as [|y l Hsorted IH Hall]; simpl.
  - repeat constructor.
  - unfold by_size_desc at 1. destruct (Z.leb_spec (Z.of_nat (size y) - Z.of_nat (size x)) 0).
    + constructor; [by constructor|]. constructor; [unfold size_desc; lia|].
      eapply Forall_impl; [exact Hall|]. unfold size_desc. intros; simpl in *. lia.
    + constructor; [exact IH|].
      rewrite insert_sorted_perm. constructor; [unfold size_desc; lia | exact Hall].
Qed.

Lemma sort_by_size_sorted l : StronglySorted size_desc (JS.sort by_size_desc l).
Proof.
  induction l as [|x l IH]; simpl; [constructor|]. by apply insert_by_size_sorted.
Qed.

Lemma insert_by_size_stable s x l :
  List.filter (of_size s) (JS.insert_sorted by_size_desc x l) =
  List.filter (of_size s) (x :: l).
Proof.
  induction l as [|y l IH]; [done|]. cbn [JS.insert_sorted].
  unfold by_size_desc at 1.
  destruct (Z.leb_spec (Z.of_nat (size y) - Z.of_nat (size x)) 0); [done|].
  cbn [List.filter] in *. rewrite IH. unfold of_size.
  destruct (Nat.eqb_spec (size y) s), (Nat.eqb_spec (size x) s); try done. lia.
Qed.

(** Sorting keeps clusters of one size in the order they had. *)
Lemma sort_by_size_stable s l :
  List.filter (of_size s) (JS.sort by_size_desc l) = List.filter (of_size s) l.
Proof.
  induction l as [|x l IH]; [done|]. cbn [JS.sort].
  rewrite insert_by_size_stable. cbn [List.filter]. by rewrite IH.
Qed.

End SortFacts.

(** ** The groups partition the points, in order of first appearance *)

Section Partition.

Implicit Types (l : list (option Z * ClusterPoint)) (ks : list Z).

Lemma concat_map_app {A B : Type} (f g : A -> list B) (xs : list A) :
  concat (map (fun k => f k ++ g k) xs) ≡ₚ concat (map f xs) ++ concat (map g xs).
Proof.
  induction xs as [|x xs IH]; simpl; [done|].
  rewrite IH, <- !app_assoc. apply Permutation_app_head.
  rewrite !app_assoc. apply Permutation_app_tail, Permutation_app_comm.
Qed.

Lemma concat_label_absent ks x :
  (forall k, k ∈ ks -> fst x <> Some k) ->
  concat (map (fun k => if has_label k x then [snd x] else []) ks) = [].
Proof.
  induction ks as [|k ks IH]; intros H; simpl; [done|].
  rewrite IH by (intros k' Hk'; apply H; by right).
  unfold has_label. destruct (fst x) as [k'|] eqn:E; [|done].
  destruct (Z.eqb_spec k' k) as [->|]; [|done].
  exfalso. apply (H k); [left | done].
Qed.

Lemma concat_label_present ks x k :
  NoDup ks -> k ∈ ks -> fst x = Some k ->
  concat (map (fun k' => if has_label k' x then [snd x] else []) ks) = [snd x].
Proof.
  intros Hnd Hin Hx. induction Hnd as [|k' ks Hnotin Hnd IH]; [by apply elem_of_nil in Hin|].
  simpl. unfold has_label at 1. rewrite Hx.
  destruct (Z.eqb_spec k k') as [->|Hne].
  - rewrite concat_label_absent; [done|]. intros k Hk. congruence.
  - apply elem_of_cons in Hin as [?|Hin]; [done|]. by rewrite IH.
Qed.

Lemma members_cons k x l :
  members k (x :: l) = (if has_label k x then [snd x] else []) ++ members k l.
Proof. unfold members. simpl. destruct (has_label k x); reflexivity. Qed.

Lemma partition_perm l ks :
  NoDup ks ->
  (-1)%Z ∉ ks ->
  (forall x k, x ∈ l -> fst x = Some k -> k <> (-1)%Z -> k ∈ ks) ->
  concat (map (fun k => members k l) ks) ++ noise_of l ≡ₚ map snd l.
Proof.
  intros Hnd Hm1. induction l as [|x l IH]; intros Hcov.
  - simpl. unfold members, noise_of. simpl.
    assert (concat (map (fun _ : Z => @nil ClusterPoint) ks) = []) as ->; [|done].
    clear. induction ks; simpl; auto.
  - erewrite (map_ext _ _ (fun k => members_cons k x l)).
    rewrite concat_map_app. unfold noise_of. simpl. fold (noise_of l).
    rewrite <- IH by (intros y k Hy; apply Hcov; by right).
    destruct (is_noise_label (fst x)) eqn:Hn.
    + rewrite concat_label_absent.
      * simpl. symmetry. apply Permutation_middle.
      * intros k Hk Hx. rewrite Hx in Hn. simpl in Hn.
        apply Z.eqb_eq in Hn as ->. done.
    + destruct (fst x) as [k|] eqn:Hx; [|done]. simpl in Hn.
      apply Z.eqb_neq in Hn.
      rewrite (concat_label_present ks x k); [done | done | | done].
      apply (Hcov x); [left | done | done].
Qed.

Lemma groups_partition l :
  concat (map (fun k => members k l) (keys l)) ++ noise_of l ≡ₚ map snd l.
Proof.
  apply partition_perm.
  - apply NoDup_keys.
  - intros [? _]%elem_of_keys. done.
  - intros x k Hx Hf Hk. apply elem_of_keys. eauto.
Qed.

Lemma members_elem k l p :
  p ∈ members k l <-> (Some k, p) ∈ l.
Proof.
  unfold members. rewrite list_elem_of_In, in_map_iff. split.
  - intros ([c q] & <- & Hin). apply filter_In in Hin as [Hin Hl].
    unfold has_label in Hl; simpl in *. destruct c as [k'|]; [|done].
    apply Z.eqb_eq in Hl as ->. by apply list_elem_of_In.
  - intros Hin. exists (Some k, p). split; [done|]. apply filter_In.
    split; [by apply list_elem_of_In|]. unfold has_label; simpl. apply Z.eqb_refl.
Qed.

Lemma members_nonempty k l : k ∈ keys l -> members k l <> [].
Proof.
  intros (_ & x & Hx & Hf)%elem_of_keys Hnil.
  eapply members_nil_iff in Hnil; eauto.
Qed.

Lemma StronglySorted_snoc {A : Type} (R : A -> A -> Prop) (xs : list A) (x : A) :
  StronglySorted R xs -> Forall (fun y => R y x) xs -> StronglySorted R (xs ++ [x]).
Proof.
  induction 1 as [|y xs Hs IH Hall]; intros Hx; simpl.
  - repeat constructor.
  - apply Forall_cons in Hx as [Hy Hx]. constructor; [by apply IH|].
    apply Forall_app. split; [done | by repeat constructor].
Qed.

Lemma StronglySorted_filter_bool {A : Type} (R : A -> A -> Prop) (f : A -> bool) (xs : list A) :
  StronglySorted R xs -> StronglySorted R (List.filter f xs).
Proof.
  induction 1 as [|y xs Hs IH Hall]; simpl; [constructor|].
  destruct (f y); [|done]. constructor; [done|].
  apply Forall_forall. intros z Hz%list_elem_of_In%filter_In.
  destruct Hz as [Hz _]. rewrite Forall_forall in Hall. apply Hall. by apply list_elem_of_In.
Qed.

Lemma StronglySorted_pair {A : Type} (R : A -> A -> Prop) (l1 l2 l3 : list A) (a b : A) :
  StronglySorted R (l1 ++ a :: l2 ++ b :: l3) -> R a b.
Proof.
  induction l1 as [|x l1 IH]; simpl; intros H; inversion H as [|? ? Hs Hall]; subst.
  - rewrite Forall_forall in Hall. apply Hall.
    rewrite elem_of_app. right. left.
  - by apply IH.
Qed.

Lemma head_snoc_nonempty {A : Type} (xs ys : list A) : xs <> [] -> head (xs ++ ys) = head xs.
Proof. by destruct xs. Qed.

Lemma heads_keep l x ks :
  (forall k, k ∈ ks -> k ∈ keys l) ->
  map (fun k => head (members k (l ++ [x]))) ks = map (fun k => head (members k l)) ks.
Proof.
  intros Hin. apply map_ext_in. intros k Hk%list_elem_of_In.
  rewrite members_snoc. apply head_snoc_nonempty, members_nonempty. auto.
Qed.

(** Where positions are recorded in [index], the groups are in the order of
    their first points. *)
Lemma heads_in_order l :
  (forall i x, l !! i = Some x -> index (snd x) = i) ->
  StronglySorted before (map (fun k => head (members k l)) (keys l)) /\
  Forall (fun o => exists p, o = Some p /\ index p < length l)
         (map (fun k => head (members k l)) (keys l)).
Proof.
  induction l as [|x l IH] using rev_ind; intros Hidx.
  - split; constructor.
  - destruct IH as [IHs IHb].
    { intros i y Hy. apply Hidx. by apply lookup_app_l_Some. }
    assert (Hweak : Forall (fun o => exists p, o = Some p /\ index p < length (l ++ [x]))
                      (map (fun k => head (members k l)) (keys l))).
    { eapply Forall_impl; [exact IHb|]. intros o (p & -> & Hp). exists p.
      rewrite length_app. simpl. split; [done | lia]. }
    rewrite keys_snoc. unfold add_key.
    destruct (fst x) as [k|] eqn:Hx; [|by rewrite heads_keep].
    destruct (Z.eqb_spec k (-1)) as [->|Hk]; simpl; [by rewrite heads_keep|].
    destruct (existsb _ (keys l)) eqn:E; [by rewrite heads_keep|].
    rewrite map_app, heads_keep by done. simpl.
    assert (members k l = []) as Hnil.
    { apply members_nil_iff. intros y Hy Hfy.
      assert (k ∈ keys l) as Hin by (apply elem_of_keys; eauto).
      apply existsb_key in Hin. congruence. }
    rewrite members_snoc, Hnil. unfold has_label. rewrite Hx, Z.eqb_refl. simpl.
    assert (index (snd x) = length l) as Hlen.
    { apply Hidx. by rewrite list_lookup_middle. }
    split.
    + apply StronglySorted_snoc; [done|].
      eapply Forall_impl; [exact IHb|]. intros o (p & -> & Hp). simpl. lia.
    + apply Forall_app. split; [done|]. constructor; [|constructor].
      exists (snd x). rewrite length_app. simpl. split; [done | lia].
Qed.

Lemma StronglySorted_map {A B : Type} (R : B -> B -> Prop) (f : A -> B) (xs : list A) :
  StronglySorted R (map f xs) -> StronglySorted (fun a b => R (f a) (f b)) xs.
Proof.
  induction xs as [|x xs IH]; simpl; intros H; [constructor|].
  inversion H as [|? ? Hs Hall]; subst. constructor; [by apply IH|].
  apply Forall_forall. intros y Hy.
  eapply Forall_forall in Hall; [exact Hall|].
  apply list_elem_of_In, in_map, list_elem_of_In. done.
Qed.

End Partition.

(** ** The steps of the service *)

Section ServiceFacts.

Variable distance : Position -> Position -> JS.number.
Variable dbscan_labels : list Position -> JS.number -> JS.number -> list (option Z).
Variable now : JS.ISOString.

Lemma has_valid_location_spec r : has_valid_location r = true <-> kept_by_filter r.
Proof.
  unfold has_valid_location, kept_by_filter, defined_not_nan,
    location_latitude, location_longitude. split.
  - destruct (location r) as [| |loc]; try discriminate.
    destruct (latitude loc) as [| |[|la]] eqn:Ela; try discriminate;
      destruct (longitude loc) as [| |[|lo]] eqn:Elo; try discriminate;
      intros _; exists loc; rewrite Ela, Elo; (split; [reflexivity|]);
      split; first [by left | right; eexists; reflexivity].
  - intros (loc & -> & [->|[la ->]] & [->|[lo ->]]); reflexivity.
Qed.

Lemma geolocated_kept r : geolocated r -> kept_by_filter r.
Proof.
  intros (loc & la & lo & Hloc & Hla & Hlo). exists loc.
  unfold defined_not_nan. rewrite Hla, Hlo.
  split; [done|]. split; right; eexists; reflexivity.
Qed.

Lemma kept_typed_geolocated r : typed r -> kept_by_filter r -> geolocated r.
Proof.
  unfold typed. intros Ht (loc & Hloc & Hla & Hlo). rewrite Hloc in Ht.
  destruct Ht as [Hnla Hnlo].
  destruct Hla as [?|[la Hla]]; [done|]. destruct Hlo as [?|[lo Hlo]]; [done|].
  exists loc, la, lo. auto.
Qed.

Lemma geolocated_iff r : geolocated r <-> ~ lacks_position r.
Proof.
  unfold geolocated, lacks_position, bad_coordinate. split.
  - intros (loc & la & lo & -> & -> & ->). intros [[|[|]]|[|[|]]]; discriminate.
  - destruct (location r) as [| |loc]; [tauto | tauto |].
    destruct (latitude loc) as [| |[|la]] eqn:Ela; [tauto | tauto | tauto |].
    destruct (longitude loc) as [| |[|lo]] eqn:Elo; [tauto | tauto | tauto |].
    intros _. exists loc, la, lo. repeat split; (reflexivity || assumption).
Qed.

Lemma classic_lacks r : lacks_position r \/ ~ lacks_position r.
Proof.
  unfold lacks_position, bad_coordinate.
  destruct (location r) as [| |loc]; [tauto | tauto |].
  destruct (latitude loc) as [| |[|la]]; [tauto | tauto | tauto |].
  destruct (longitude loc) as [| |[|lo]]; [tauto | tauto | tauto |].
  right. intros [[|[|]]|[|[|]]]; discriminate.
Qed.

Lemma not_valid_lacks r : has_valid_location r = false -> lacks_position r.
Proof.
  intros Hv. destruct (classic_lacks r) as [|Hg]; [done|].
  apply geolocated_iff, geolocated_kept, has_valid_location_spec in Hg. congruence.
Qed.

Lemma to_feature_ok i r f :
  to_feature i r = JS.Ok f ->
  exists loc la lo,
    location r = JS.Val loc /\
    latitude loc = JS.Val (JS.Num la) /\
    longitude loc = JS.Val (JS.Num lo) /\
    geometry_coordinates f = (JS.Num lo, JS.Num la) /\
    reportIndex (properties f) = i.
Proof.
  unfold to_feature. intros H.
  apply bind_ok in H as (loc & Hloc & H).
  apply bind_ok in H as (pos & Hpos & H).
  apply bind_ok in H as (created & _ & H). injection H as <-. simpl.
  destruct (location r) as [| |loc']; try discriminate. injection Hloc as ->.
  unfold turf_point in Hpos.
  destruct (longitude loc) as [| |[|lo]] eqn:Elo; try discriminate;
    destruct (latitude loc) as [| |[|la]] eqn:Ela; try discriminate.
  injection Hpos as <-. exists loc, la, lo. repeat split; (reflexivity || assumption).
Qed.

Lemma to_feature_total i r :
  geolocated r ->
  (exists ms, createdAt r = JS.date ms) ->
  exists f, to_feature i r = JS.Ok f.
Proof.
  intros (loc & la & lo & Hloc & Hla & Hlo) (ms & Hms).
  unfold to_feature. rewrite Hloc. simpl. rewrite Hla, Hlo, Hms. simpl. eauto.
Qed.

Lemma to_feature_throw i r e :
  to_feature i r = JS.Throw e -> e <> no_location_error.
Proof.
  unfold to_feature, turf_point, JS.toISOString.
  destruct (location r) as [| |loc]; simpl; try (intros [= <-]; discriminate).
  destruct (longitude loc) as [| |[|lo]]; simpl; try (intros [= <-]; discriminate);
    destruct (latitude loc) as [| |[|la]]; simpl; try (intros [= <-]; discriminate).
  destruct (createdAt r); simpl; [discriminate | intros [= <-]; discriminate].
Qed.

Lemma max_radius_throw cx cy m pts e :
  max_radius distance cx cy m pts = JS.Throw e -> e <> no_location_error.
Proof.
  revert m. induction pts as [|p pts IH]; intros m; simpl; [discriminate|].
  unfold turf_point.
  destruct (JS.isNaN cx || JS.isNaN cy); simpl; [intros [= <-]; discriminate|].
  destruct (JS.isNaN (lng p) || JS.isNaN (lat p)); simpl; [intros [= <-]; discriminate|].
  apply IH.
Qed.

Lemma cluster_compliance_throw stats pts e :
  cluster_compliance stats pts = JS.Throw e -> e <> no_location_error.
Proof.
  revert stats. induction pts as [|p pts IH]; intros stats; simpl; [discriminate|].
  destruct (report p); [apply IH | intros [= <-]; discriminate].
Qed.

Lemma cluster_info_throw entry e :
  cluster_info distance entry = JS.Throw e -> e <> no_location_error.
Proof.
  destruct entry as [k pts]. unfold cluster_info.
  intros [H | (r & _ & H)]%bind_throw; [by eapply max_radius_throw|].
  apply bind_throw in H as [H | (s & _ & H)]; [by eapply cluster_compliance_throw | discriminate].
Qed.

Lemma cluster_info_ok entry c :
  cluster_info distance entry = JS.Ok c ->
  cluster_id c = fst entry /\
  points c = snd entry /\
  size c = length (snd entry) /\
  center_latitude (center c) =
    JS.div (fold_left (fun sum p => JS.add sum (lat p)) (snd entry) (JS.Num 0))
           (JS.of_nat (length (snd entry))) /\
  center_longitude (center c) =
    JS.div (fold_left (fun sum p => JS.add sum (lng p)) (snd entry) (JS.Num 0))
           (JS.of_nat (length (snd entry))) /\
  max_radius distance (center_longitude (center c)) (center_latitude (center c))
             (JS.Num 0) (snd entry) = JS.Ok (radius_km c).
Proof.
  destruct entry as [k pts]. unfold cluster_info.
  intros (r & Hr & H)%bind_ok. apply bind_ok in H as (s & Hs & H).
  injection H as <-. simpl. auto 10.
Qed.

(** What a successful analysis is made of. *)
Lemma analyze_inv reports epsKm minSamples r :
  analyzeComplianceReports distance dbscan_labels now reports epsKm minSamples = JS.Ok r ->
  exists features infos,
    let rwl := List.filter has_valid_location reports in
    let tagged := labelled_points rwl (clustersDbscan dbscan_labels features epsKm minSamples) in
    rwl <> [] /\
    JS.map_indexed to_feature rwl = JS.Ok features /\
    JS.map_indexed (fun _ => cluster_info distance)
      (map (fun k => (k, members k tagged)) (keys tagged)) = JS.Ok infos /\
    clusters r = JS.sort by_size_desc infos /\
    noise_points r = noise_of tagged /\
    total_points (summary r) = length rwl /\
    n_clusters (summary r) = length (keys tagged) /\
    n_noise_points (summary r) = length (noise_of tagged) /\
    clustering_params r = {| eps_km := epsKm; min_samples := minSamples |}.
Proof.
  unfold analyzeComplianceReports.
  destruct (Nat.eqb_spec (length (List.filter has_valid_location reports)) 0) as [|Hne];
    [discriminate|].
  intros (features & Hf & H)%bind_ok. unfold group_points in H.
  rewrite group_fold in H.
  apply bind_ok in H as (infos & Hi & H). injection H as <-. simpl.
  exists features, infos. rewrite length_map.
  repeat split; try done. intros Hnil. by rewrite Hnil in Hne.
Qed.

End ServiceFacts.

Section ServiceResults.

Variable distance : Position -> Position -> JS.number.
Variable dbscan_labels : list Position -> JS.number -> JS.number -> list (option Z).
Variable now : JS.ISOString.

Lemma map_from_Forall2 {A B : Type} (g : A -> JS.result B) (l : list A) :
  forall i ys, JS.map_from (fun _ => g) i l = JS.Ok ys ->
               Forall2 (fun x y => g x = JS.Ok y) l ys.
Proof.
  induction l as [|x l IH]; intros i ys H; simpl in H.
  - injection H as <-. constructor.
  - apply bind_ok in H as (y & Hy & H). apply bind_ok in H as (ys' & Hys & H).
    injection H as <-. constructor; eauto.
Qed.

Lemma infos_of_entries (entries : ClusterMap) infos :
  JS.map_indexed (fun _ => cluster_info distance) entries = JS.Ok infos ->
  Forall2 (fun e c => cluster_info distance e = JS.Ok c) entries infos /\
  map points infos = map snd entries /\
  map size infos = map (fun e => length (snd e)) entries.
Proof.
  intros H%map_from_Forall2. split; [exact H|].
  induction H as [|e c entries infos Hc _ [IH1 IH2]]; simpl; [done|].
  apply cluster_info_ok in Hc as (_ & Hp & Hs & _). rewrite Hp, Hs, IH1, IH2. done.
Qed.

Lemma infos_size (entries : ClusterMap) infos :
  JS.map_indexed (fun _ => cluster_info distance) entries = JS.Ok infos ->
  Forall (fun c => size c = length (points c)) infos.
Proof.
  intros H%map_from_Forall2.
  induction H as [|e c entries infos Hc _ IH]; constructor; [|done].
  apply cluster_info_ok in Hc as (_ & Hp & Hs & _). congruence.
Qed.

(** Feature [i] is built from report [i] of the filtered list; the point
    made from it records that position, the report and its coordinates. *)
Lemma labelled_lookup rwl features epsKm minSamples i c p :
  JS.map_indexed to_feature rwl = JS.Ok features ->
  labelled_points rwl (clustersDbscan dbscan_labels features epsKm minSamples) !! i
    = Some (c, p) ->
  index p = i /\
  c = mjoin (dbscan_labels (map geometry_coordinates features) epsKm minSamples !! i) /\
  map geometry_coordinates features !! i = Some (coordinates p) /\
  exists rep loc la lo,
    rwl !! i = Some rep /\ report p = Some rep /\
    location rep = JS.Val loc /\
    latitude loc = JS.Val (JS.Num la) /\ longitude loc = JS.Val (JS.Num lo) /\
    lat p = JS.Num la /\ lng p = JS.Num lo /\
    coordinates p = (JS.Num lo, JS.Num la) /\
    clusterId p = default (-1)%Z c.
Proof.
  intros Hmap Hlook. apply map_from_ok in Hmap as [Hlen Hfeat].
  unfold labelled_points, clustersDbscan in Hlook.
  rewrite !list_lookup_imap in Hlook.
  destruct (features !! i) as [f|] eqn:Hf; [|discriminate]. simpl in Hlook.
  injection Hlook as <- <-. simpl.
  assert (is_Some (rwl !! i)) as [rep Hrep].
  { apply lookup_lt_is_Some. rewrite <- Hlen. by eapply lookup_lt_Some. }
  destruct (Hfeat _ _ Hrep) as (f' & Hf' & Hto). simpl in Hto.
  assert (f' = f) as -> by congruence.
  apply to_feature_ok in Hto as (loc & la & lo & Hloc & Hla & Hlo & Hgeo & Hidx).
  split; [done|]. split; [done|]. split; [by rewrite list_lookup_fmap, Hf|].
  exists rep, loc, la, lo. rewrite Hidx, Hgeo. simpl. auto 12.
Qed.

Lemma concat_perm {A : Type} (xs ys : list (list A)) :
  xs ≡ₚ ys -> concat xs ≡ₚ concat ys.
Proof.
  induction 1 as [|x xs ys _ IH|x y xs|xs ys zs _ IH1 _ IH2]; simpl.
  - done.
  - by rewrite IH.
  - rewrite !app_assoc. apply Permutation_app_tail, Permutation_app_comm.
  - by rewrite IH1.
Qed.

Lemma length_concat_sum {A : Type} (xs : list (list A)) :
  length (concat xs) = sum_list (map length xs).
Proof. induction xs as [|x xs IH]; simpl; [done|]. rewrite length_app, IH. done. Qed.

Lemma sum_list_perm (xs ys : list nat) : xs ≡ₚ ys -> sum_list xs = sum_list ys.
Proof. induction 1; simpl; lia. Qed.

Lemma labelled_length rwl features epsKm minSamples :
  JS.map_indexed to_feature rwl = JS.Ok features ->
  length (labelled_points rwl (clustersDbscan dbscan_labels features epsKm minSamples))
    = length rwl.
Proof.
  intros [Hlen _]%map_from_ok. unfold labelled_points, clustersDbscan.
  by rewrite !length_imap.
Qed.

(** The returned points are the points built from the features. *)
Lemma all_points_perm reports epsKm minSamples r :
  analyzeComplianceReports distance dbscan_labels now reports epsKm minSamples = JS.Ok r ->
  exists features,
    let rwl := List.filter has_valid_location reports in
    JS.map_indexed to_feature rwl = JS.Ok features /\
    all_points r ≡ₚ
      map snd (labelled_points rwl (clustersDbscan dbscan_labels features epsKm minSamples)).
Proof.
  intros (features & infos & Hne & Hfeat & Hinfos & Hcl & Hnoise & _)%analyze_inv.
  exists features. split; [done|].
  apply infos_of_entries in Hinfos as (_ & Hpts & _). rewrite map_map in Hpts.
  unfold all_points. rewrite Hcl, Hnoise.
  rewrite (concat_perm (map points (JS.sort by_size_desc infos)) (map points infos)).
  - rewrite Hpts. apply groups_partition.
  - apply Permutation_map, sort_perm.
Qed.

(** The returned points, each with its recorded position and report, are the
    reports of the filtered list with their positions. *)
Lemma returned_pairs reports epsKm minSamples r :
  analyzeComplianceReports distance dbscan_labels now reports epsKm minSamples = JS.Ok r ->
  map (fun p => (index p, report p)) (all_points r)
    ≡ₚ imap (fun i rep => (i, Some rep)) (List.filter has_valid_location reports).
Proof.
  intros (features & Hfeat & Hall)%all_points_perm. cbv zeta in Hfeat, Hall.
  set (rwl := List.filter has_valid_location reports) in *.
  set (tagged := labelled_points rwl _) in *.
  rewrite Hall.
  enough (map (fun p => (index p, report p)) (map snd tagged)
          = imap (fun i rep => (i, Some rep)) rwl) as -> by done.
  apply list_eq. intros i. rewrite list_lookup_imap, !list_lookup_fmap.
  destruct (tagged !! i) as [[c p]|] eqn:Hi; simpl.
  - eapply labelled_lookup in Hi as (Hidx & _ & _ & rep & loc & la & lo & Hrep & Hr & _);
      [|exact Hfeat].
    rewrite Hrep. simpl. congruence.
  - apply lookup_ge_None in Hi. unfold tagged in Hi.
    rewrite labelled_length in Hi by done.
    apply lookup_ge_None in Hi. by rewrite Hi.
Qed.

Lemma positions_of_pairs (rwl : list AnalyticsComplianceReport) :
  map fst (imap (fun i rep => (i, Some rep)) rwl) = seq 0 (length rwl).
Proof.
  apply list_eq. intros i. rewrite list_lookup_fmap, list_lookup_imap.
  destruct (rwl !! i) eqn:Hi; simpl.
  - rewrite lookup_seq_lt; [done|]. by eapply lookup_lt_Some.
  - rewrite lookup_seq_ge; [done|]. by apply lookup_ge_None.
Qed.

(** C1: on a successful analysis every report of the filtered list, taken
    with its position in that list, is the report of exactly one returned
    point, which lies in one cluster or in the noise list, and
    [summary.total_points] is the sum of the cluster sizes plus the number
    of noise points. *)
Theorem conservation reports epsKm minSamples r :
  analyzeComplianceReports distance dbscan_labels now reports epsKm minSamples = JS.Ok r ->
  map (fun p => (index p, report p)) (all_points r)
    ≡ₚ imap (fun i rep => (i, Some rep)) (List.filter has_valid_location reports) /\
  NoDup (map index (all_points r)) /\
  total_points (summary r) = sum_list (map size (clusters r)) + length (noise_points r).
Proof.
  intros Hrun. pose proof (returned_pairs _ _ _ _ Hrun) as Hpairs.
  apply analyze_inv in Hrun as (features & infos & Hne & Hfeat & Hinfos & Hcl & Hnoise & Htot & _).
  set (rwl := List.filter has_valid_location reports) in *.
  assert (Hidx : map index (all_points r) ≡ₚ seq 0 (length rwl)).
  { rewrite <- positions_of_pairs, <- Hpairs, map_map. done. }
  split; [done|]. split; [rewrite Hidx; apply NoDup_seq|].
  assert (Hlen : length (all_points r) = length rwl).
  { rewrite <- (length_map index), Hidx. apply length_seq. }
  rewrite Htot, <- Hlen.
  unfold all_points. rewrite length_app, length_concat_sum, map_map.
  f_equal. f_equal. apply map_ext_in. intros c Hc%list_elem_of_In.
  symmetry. revert c Hc. apply Forall_forall. rewrite Hcl, sort_perm.
  by apply infos_size in Hinfos.
Qed.

(** The empty-input error, as the filter has it: the service throws it
    exactly when no report has a latitude and a longitude that are both
    neither [undefined] nor [NaN]. On reports whose coordinates have their
    declared type, these are the reports with both coordinates present and
    numeric. *)
Lemma empty_input_error reports epsKm minSamples :
  (analyzeComplianceReports distance dbscan_labels now reports epsKm minSamples
     = JS.Throw no_location_error
   <-> (forall rep, rep ∈ reports -> ~ kept_by_filter rep)) /\
  ((forall rep, rep ∈ reports -> typed rep) ->
   (analyzeComplianceReports distance dbscan_labels now reports epsKm minSamples
      = JS.Throw no_location_error
    <-> (forall rep, rep ∈ reports -> ~ geolocated rep))).
Proof.
  assert (Hkept : analyzeComplianceReports distance dbscan_labels now reports epsKm minSamples
                    = JS.Throw no_location_error
                  <-> (forall rep, rep ∈ reports -> ~ kept_by_filter rep)).
  { unfold analyzeComplianceReports.
    destruct (Nat.eqb_spec (length (List.filter has_valid_location reports)) 0) as [Hz|Hnz].
    - split; [|done]. intros _ rep Hin Hgeo.
      apply has_valid_location_spec in Hgeo.
      assert (rep ∈ List.filter has_valid_location reports) as Hf.
      { apply list_elem_of_In, filter_In. split; [by apply list_elem_of_In | done]. }
      apply length_zero_iff_nil in Hz. rewrite Hz in Hf. by apply elem_of_nil in Hf.
    - split.
      + intros H. exfalso.
        apply bind_throw in H as [H | (features & _ & H)].
        { apply map_from_throw in H as (j & x & _ & H). by apply to_feature_throw in H. }
        unfold group_points in H. rewrite group_fold in H.
        apply bind_throw in H as [H | (infos & _ & H)]; [|discriminate].
        apply map_from_throw in H as (j & x & _ & H). by apply cluster_info_throw in H.
      + intros Hnone. exfalso. apply Hnz.
        destruct (List.filter has_valid_location reports) as [|rep l] eqn:E; [done|].
        assert (rep ∈ List.filter has_valid_location reports) as Hf by (rewrite E; left).
        apply list_elem_of_In, filter_In in Hf as [Hin Hv].
        exfalso. apply (Hnone rep); [by apply list_elem_of_In | by apply has_valid_location_spec]. }
  split; [exact Hkept|].
  intros Ht. rewrite Hkept. split; intros H rep Hin Hk; apply (H rep Hin).
  - by apply geolocated_kept.
  - apply kept_typed_geolocated; [by apply Ht | done].
Qed.

(** The reports that reach the clustering have both coordinates numeric. *)
Lemma features_geolocated rwl features :
  JS.map_indexed to_feature rwl = JS.Ok features ->
  forall rep, rep ∈ rwl -> geolocated rep.
Proof.
  intros [_ Hfeat]%map_from_ok rep [j Hj]%list_elem_of_lookup.
  destruct (Hfeat _ _ Hj) as (f & _ & Hto).
  apply to_feature_ok in Hto as (loc & la & lo & ? & ? & ? & _).
  exists loc, la, lo. auto.
Qed.

(** C8: a report without a location, or whose latitude or longitude is
    [undefined], [null] or [NaN], is the report of no returned point, in
    clusters or in noise, and [summary.total_points] counts the other
    reports only. *)
Theorem filtering_correctness reports epsKm minSamples r :
  analyzeComplianceReports distance dbscan_labels now reports epsKm minSamples = JS.Ok r ->
  (forall p rep, p ∈ all_points r -> report p = Some rep -> ~ lacks_position rep) /\
  (forall p, p ∈ all_points r -> exists rep, report p = Some rep /\ rep ∈ reports) /\
  exists counted ignored,
    reports ≡ₚ counted ++ ignored /\
    Forall (fun rep => ~ lacks_position rep) counted /\
    Forall lacks_position ignored /\
    total_points (summary r) = length counted.
Proof.
  intros Hrun. pose proof (returned_pairs _ _ _ _ Hrun) as Hperm.
  apply analyze_inv in Hrun as (features & infos & _ & Hfeat & _ & _ & _ & Htot & _).
  set (rwl := List.filter has_valid_location reports) in *.
  assert (Hpt : forall p, p ∈ all_points r ->
            exists rep, report p = Some rep /\ rep ∈ rwl).
  { intros p Hp.
    assert ((index p, report p) ∈ map (fun p => (index p, report p)) (all_points r)) as Hin.
    { apply list_elem_of_In, (in_map (fun p => (index p, report p))), list_elem_of_In, Hp. }
    rewrite Hperm in Hin. apply list_elem_of_lookup in Hin as [i Hi].
    rewrite list_lookup_imap in Hi. destruct (rwl !! i) as [rep|] eqn:Hrep; [|done].
    injection Hi as _ Hr. exists rep. split; [done|]. by eapply list_elem_of_lookup_2. }
  assert (Hrwl : forall rep, rep ∈ rwl -> rep ∈ reports /\ ~ lacks_position rep).
  { intros rep Hin. split.
    - apply list_elem_of_In, filter_In in Hin as [Hin _]. by apply list_elem_of_In.
    - apply geolocated_iff. by eapply features_geolocated. }
  split; [|split].
  - intros p rep Hp Hr. destruct (Hpt p Hp) as (rep' & Hr' & Hin).
    assert (rep' = rep) as -> by congruence. by apply Hrwl.
  - intros p Hp. destruct (Hpt p Hp) as (rep & Hr & Hin). exists rep.
    split; [done|]. by apply Hrwl.
  - exists rwl, (List.filter (fun rep => negb (has_valid_location rep)) reports).
    split; [|split; [|split; [|done]]].
    + unfold rwl. clear. induction reports as [|rep l IH]; simpl; [done|].
      destruct (has_valid_location rep); simpl.
      * by constructor.
      * rewrite <- Permutation_middle. by constructor.
    + apply Forall_forall. intros rep Hin. by apply Hrwl.
    + apply Forall_forall. intros rep [_ Hv]%list_elem_of_In%filter_In.
      apply not_valid_lacks. by apply negb_true_iff.
Qed.

End ServiceResults.

(** ** Cluster statistics *)

Section ClusterStatistics.

Variable distance : Position -> Position -> JS.number.
Variable dbscan_labels : list Position -> JS.number -> JS.number -> list (option Z).
Variable now : JS.ISOString.

(** Every point handed to the grouping has numeric coordinates. *)
Lemma member_numeric rwl features epsKm minSamples k p :
  JS.map_indexed to_feature rwl = JS.Ok features ->
  p ∈ members k (labelled_points rwl (clustersDbscan dbscan_labels features epsKm minSamples)) ->
  exists la lo, lat p = JS.Num la /\ lng p = JS.Num lo.
Proof.
  intros Hfeat [i Hi]%members_elem%list_elem_of_lookup.
  eapply labelled_lookup in Hi as (_ & _ & _ & rep & loc & la & lo & _ & _ & _ & _ & _ & Hla & Hlo & _);
    [|exact Hfeat].
  eauto.
Qed.

(** A returned cluster is built from one entry of the map, whose points are
    the members of one label. *)
Lemma cluster_origin reports epsKm minSamples r c :
  analyzeComplianceReports distance dbscan_labels now reports epsKm minSamples = JS.Ok r ->
  c ∈ clusters r ->
  exists features k,
    let rwl := List.filter has_valid_location reports in
    let tagged := labelled_points rwl (clustersDbscan dbscan_labels features epsKm minSamples) in
    JS.map_indexed to_feature rwl = JS.Ok features /\
    k ∈ keys tagged /\
    cluster_info distance (k, members k tagged) = JS.Ok c.
Proof.
  intros (features & infos & _ & Hfeat & Hinfos & Hcl & _)%analyze_inv Hc.
  rewrite Hcl, sort_perm in Hc.
  apply infos_of_entries in Hinfos as (HF & _).
  exists features. simpl.
  set (tagged := labelled_points _ _) in *.
  apply list_elem_of_lookup in Hc as [i Hi].
  destruct (Forall2_lookup_r _ _ _ _ _ HF Hi) as (e & He & Hinfo).
  rewrite list_lookup_fmap in He.
  destruct (keys tagged !! i) as [k|] eqn:Hk; [|discriminate].
  injection He as <-. exists k. split; [done|]. split; [|done].
  by eapply list_elem_of_lookup_2.
Qed.

Lemma sum_loop (f : ClusterPoint -> JS.number) (pts : list ClusterPoint) (xs : list Q) :
  map f pts = map JS.Num xs ->
  forall a, exists q,
    fold_left (fun sum p => JS.add sum (f p)) pts (JS.Num a) = JS.Num q /\
    (q == a + sumQ xs)%Q.
Proof.
  revert xs. induction pts as [|p pts IH]; intros [|x xs] H a; try discriminate; simpl.
  - exists a. split; [done|]. lra.
  - injection H as Hp H. rewrite Hp. simpl.
    destruct (IH xs H (a + x)%Q) as (q & -> & Hq). exists q. split; [done|].
    rewrite Hq. lra.
Qed.

Lemma numeric_list (f : ClusterPoint -> JS.number) (pts : list ClusterPoint) :
  (forall p, p ∈ pts -> exists x, f p = JS.Num x) ->
  exists xs, map f pts = map JS.Num xs.
Proof.
  induction pts as [|p pts IH]; intros H; [by exists []|].
  destruct (H p) as [x Hx]; [left|].
  destruct IH as [xs Hxs]; [intros q Hq; apply H; by right|].
  exists (x :: xs). simpl. congruence.
Qed.

Lemma of_nat_nonzero n : n <> 0 -> Qeq_bool (inject_Z (Z.of_nat n)) 0 = false.
Proof.
  intros Hn. apply not_true_is_false. intros H%Qeq_bool_iff.
  unfold Qeq in H. simpl in H. lia.
Qed.

(** The centre of an entry with numeric coordinates is their mean. *)
Lemma center_is_mean (f : ClusterPoint -> JS.number) (pts : list ClusterPoint) (xs : list Q) :
  pts <> [] ->
  map f pts = map JS.Num xs ->
  exists m,
    JS.div (fold_left (fun sum p => JS.add sum (f p)) pts (JS.Num 0))
           (JS.of_nat (length pts)) = JS.Num m /\
    (m == mean xs)%Q.
Proof.
  intros Hne Hxs. destruct (sum_loop f pts xs Hxs 0%Q) as (q & -> & Hq).
  unfold JS.div, JS.of_nat. rewrite of_nat_nonzero by (by destruct pts).
  eexists. split; [done|]. unfold mean.
  assert (length xs = length pts) as ->.
  { apply (f_equal length) in Hxs. by rewrite !length_map in Hxs. }
  rewrite Hq. f_equiv. lra.
Qed.

(** The centre of a returned cluster: with the sums and the quotient taken
    exactly, it is the mean of the coordinates of its points. *)
Lemma center_of_cluster reports epsKm minSamples r c :
  analyzeComplianceReports distance dbscan_labels now reports epsKm minSamples = JS.Ok r ->
  c ∈ clusters r ->
  exists lats lngs clat clng,
    map lat (points c) = map JS.Num lats /\
    map lng (points c) = map JS.Num lngs /\
    center_latitude (center c) = JS.Num clat /\
    center_longitude (center c) = JS.Num clng /\
    (clat == mean lats)%Q /\
    (clng == mean lngs)%Q.
Proof.
  intros Hrun Hc.
  destruct (cluster_origin _ _ _ _ _ Hrun Hc) as (features & k & Hfeat & Hk & Hinfo).
  apply cluster_info_ok in Hinfo as (_ & Hpts & _ & Hlat & Hlng & _). simpl in *.
  set (pts := members k _) in *.
  assert (Hne : pts <> []) by (by apply members_nonempty).
  destruct (numeric_list lat pts) as [lats Hlats].
  { intros p Hp. eapply member_numeric in Hp as (la & lo & ? & ?); eauto. }
  destruct (numeric_list lng pts) as [lngs Hlngs].
  { intros p Hp. eapply member_numeric in Hp as (la & lo & ? & ?); eauto. }
  destruct (center_is_mean lat pts lats Hne Hlats) as (clat & Hclat & Hmlat).
  destruct (center_is_mean lng pts lngs Hne Hlngs) as (clng & Hclng & Hmlng).
  exists lats, lngs, clat, clng. rewrite Hpts, Hlat, Hlng.
  exact (conj Hlats (conj Hlngs (conj Hclat (conj Hclng (conj Hmlat Hmlng))))).
Qed.

End ClusterStatistics.

Section Radius.

Variable distance : Position -> Position -> JS.number.
Variable dbscan_labels : list Position -> JS.number -> JS.number -> list (option Z).
Variable now : JS.ISOString.

(** What is used of the great-circle distance: between two positions with
    numeric coordinates it is a number, not negative, and zero between
    equal positions. *)
Hypothesis distance_nonneg :
  forall x1 y1 x2 y2 : Q,
    exists d, distance (JS.Num x1, JS.Num y1) (JS.Num x2, JS.Num y2) = JS.Num d /\ (0 <= d)%Q.
Hypothesis distance_self :
  forall x1 y1 x2 y2 : Q,
    (x1 == x2)%Q -> (y1 == y2)%Q ->
    exists d, distance (JS.Num x1, JS.Num y1) (JS.Num x2, JS.Num y2) = JS.Num d /\ (d == 0)%Q.

Lemma max_radius_spec cx cy pts :
  (forall p, p ∈ pts -> exists la lo, lat p = JS.Num la /\ lng p = JS.Num lo) ->
  forall m r,
    max_radius distance (JS.Num cx) (JS.Num cy) (JS.Num m) pts = JS.Ok r ->
    exists rad,
      r = JS.Num rad /\ (m <= rad)%Q /\
      (forall p, p ∈ pts ->
         exists d, distance (JS.Num cx, JS.Num cy) (lng p, lat p) = JS.Num d /\ (d <= rad)%Q) /\
      (rad = m \/
       exists p, p ∈ pts /\ distance (JS.Num cx, JS.Num cy) (lng p, lat p) = JS.Num rad).
Proof.
  induction pts as [|p pts IH]; intros Hnum m r H; simpl in H.
  - injection H as <-. exists m. split; [done|]. split; [lra|]. split; [|by left].
    intros p Hp. by apply elem_of_nil in Hp.
  - destruct (Hnum p) as (la & lo & Hla & Hlo); [left|].
    rewrite Hla, Hlo in H. simpl in H.
    destruct (distance_nonneg cx cy lo la) as (d & Hd & Hd0). rewrite Hd in H. simpl in H.
    destruct (Qle_bool m d) eqn:Hmd.
    + apply Qle_bool_iff in Hmd.
      destruct (IH (fun q Hq => Hnum q (list_elem_of_further _ _ _ Hq)) _ _ H)
        as (rad & -> & Hrad & Hall & Hatt).
      exists rad. split; [done|]. split; [lra|]. split.
      * intros q [->|Hq]%elem_of_cons; [|by apply Hall].
        exists d. rewrite Hla, Hlo. done.
      * destruct Hatt as [->|(q & Hq & Hdq)]; right.
        -- exists p. rewrite Hla, Hlo. split; [left | done].
        -- exists q. split; [by right | done].
    + assert (d < m)%Q as Hlt.
      { apply Qnot_le_lt. intros Hle%Qle_bool_iff. congruence. }
      destruct (IH (fun q Hq => Hnum q (list_elem_of_further _ _ _ Hq)) _ _ H)
        as (rad & -> & Hrad & Hall & Hatt).
      exists rad. split; [done|]. split; [done|]. split.
      * intros q [->|Hq]%elem_of_cons; [|by apply Hall].
        exists d. rewrite Hla, Hlo. split; [done | lra].
      * destruct Hatt as [->|(q & Hq & Hdq)]; [by left | right].
        exists q. split; [by right | done].
Qed.

(** C6, as the code has it: the radius of every returned cluster is the
    largest distance from its centre to one of its points, it is not
    negative, it is zero for a cluster of one point, and it is zero exactly
    when every point of the cluster is at distance zero from the centre. *)
Theorem radius_is_max_distance reports epsKm minSamples r c :
  analyzeComplianceReports distance dbscan_labels now reports epsKm minSamples = JS.Ok r ->
  c ∈ clusters r ->
  exists clng clat rad,
    center_longitude (center c) = JS.Num clng /\
    center_latitude (center c) = JS.Num clat /\
    radius_km c = JS.Num rad /\
    (0 <= rad)%Q /\
    (forall p, p ∈ points c ->
       exists d, distance (JS.Num clng, JS.Num clat) (lng p, lat p) = JS.Num d /\ (d <= rad)%Q) /\
    (exists p d, p ∈ points c /\
       distance (JS.Num clng, JS.Num clat) (lng p, lat p) = JS.Num d /\ (d == rad)%Q) /\
    (size c = 1 -> (rad == 0)%Q) /\
    ((rad == 0)%Q <->
     forall p, p ∈ points c ->
       exists d, distance (JS.Num clng, JS.Num clat) (lng p, lat p) = JS.Num d /\ (d == 0)%Q).
Proof.
  intros Hrun Hc.
  destruct (center_of_cluster _ _ _ _ _ _ _ _ Hrun Hc)
    as (lats & lngs & clat & clng & Hlats & Hlngs & Hclat & Hclng & _).
  destruct (cluster_origin _ _ _ _ _ _ _ _ Hrun Hc) as (features & k & Hfeat & Hk & Hinfo).
  pose proof Hinfo as Hinfo'.
  apply cluster_info_ok in Hinfo as (_ & Hpts & Hsize & Hlat & Hlng & Hrad). simpl in *.
  set (pts := members k _) in *.
  assert (Hne : pts <> []) by (by apply members_nonempty).
  assert (Hnum : forall p, p ∈ pts -> exists la lo, lat p = JS.Num la /\ lng p = JS.Num lo).
  { intros p Hp. eapply member_numeric in Hp; eauto. }
  rewrite Hclng, Hclat in Hrad.
  destruct (max_radius_spec clng clat pts Hnum _ _ Hrad) as (rad & Hr & Hrad0 & Hall & Hatt).
  assert (Hd0 : forall p d, p ∈ pts ->
            distance (JS.Num clng, JS.Num clat) (lng p, lat p) = JS.Num d -> (0 <= d)%Q).
  { intros p d Hp Hd. destruct (Hnum p Hp) as (la & lo & Hla & Hlo).
    rewrite Hla, Hlo in Hd. destruct (distance_nonneg clng clat lo la) as (d' & Hd' & ?).
    congruence. }
  assert (Hattained : exists p d, p ∈ pts /\
            distance (JS.Num clng, JS.Num clat) (lng p, lat p) = JS.Num d /\ (d == rad)%Q).
  { destruct Hatt as [->|(p & Hp & Hd)].
    - destruct pts as [|p pts'] eqn:E; [done|].
      destruct (Hall p) as (d & Hd & Hle); [left|].
      exists p, d. split; [left|]. split; [done|].
      assert (0 <= d)%Q by (eapply (Hd0 p); [left | done]). lra.
    - exists p, rad. split; [done|]. split; [done | reflexivity]. }
  exists clng, clat, rad. rewrite Hpts.
  split; [done|]. split; [done|]. split; [done|]. split; [done|].
  split; [done|]. split; [done|]. split.
  - intros Hone. rewrite Hsize in Hone.
    destruct pts as [|p [|q pts']] eqn:E; try discriminate.
    destruct Hattained as (p' & d & Hp' & Hd & Hdr).
    apply list_elem_of_singleton in Hp' as ->.
    destruct (Hnum p) as (la & lo & Hla & Hlo); [left|].
    assert (Hlat1 : (clat == la)%Q).
    { rewrite Hclat in Hlat. simpl in Hlat. rewrite Hla in Hlat. simpl in Hlat.
      injection Hlat as ->. field. }
    assert (Hlng1 : (clng == lo)%Q).
    { rewrite Hclng in Hlng. simpl in Hlng. rewrite Hlo in Hlng. simpl in Hlng.
      injection Hlng as ->. field. }
    rewrite Hla, Hlo in Hd.
    destruct (distance_self clng clat lo la Hlng1 Hlat1) as (d' & Hd' & Hz).
    assert (d' = d) as -> by congruence. lra.
  - split.
    + intros Hz p Hp. destruct (Hall p Hp) as (d & Hd & Hle). exists d.
      split; [done|]. pose proof (Hd0 p d Hp Hd). lra.
    + intros Hzero. destruct Hattained as (p & d & Hp & Hd & Hdr).
      destruct (Hzero p Hp) as (d' & Hd' & Hz).
      assert (d' = d) as -> by congruence. lra.
Qed.

End Radius.

Section SortOrder.

Variable distance : Position -> Position -> JS.number.
Variable dbscan_labels : list Position -> JS.number -> JS.number -> list (option Z).
Variable now : JS.ISOString.

(** The identifiers of the returned clusters are pairwise different. *)
Lemma cluster_ids_nodup reports epsKm minSamples r :
  analyzeComplianceReports distance dbscan_labels now reports epsKm minSamples = JS.Ok r ->
  NoDup (map cluster_id (clusters r)).
Proof.
  intros (features & infos & _ & _ & Hinfos & Hcl & _)%analyze_inv.
  cbv zeta in Hinfos, Hcl. rewrite Hcl.
  assert (map cluster_id (JS.sort by_size_desc infos) ≡ₚ map cluster_id infos) as ->
    by apply Permutation_map, sort_perm.
  set (tagged := labelled_points _ _) in *.
  apply infos_of_entries in Hinfos as (HF & _).
  assert (map cluster_id infos = keys tagged) as ->; [|apply NoDup_keys].
  clear Hcl. revert infos HF. generalize (keys tagged).
  induction l as [|k ks IH]; intros infos HF.
  - by apply Forall2_nil_inv_l in HF as ->.
  - apply Forall2_cons_inv_l in HF as (c & infos' & Hc & HF & ->). simpl.
    apply cluster_info_ok in Hc as (-> & _). simpl. f_equal. by apply IH.
Qed.

Lemma split_at_two {A : Type} (l : list A) (i j : nat) (a b : A) :
  l !! i = Some a -> l !! j = Some b -> i < j ->
  exists l1 l2 l3, l = l1 ++ a :: l2 ++ b :: l3.
Proof.
  intros Ha Hb Hij.
  exists (take i l), (take (j - S i) (drop (S i) l)), (drop (S (j - S i)) (drop (S i) l)).
  rewrite <- (take_drop_middle l i a Ha) at 1. f_equal. f_equal.
  symmetry. apply take_drop_middle. rewrite lookup_drop.
  replace (S i + (j - S i)) with j by lia. done.
Qed.

(** C7, as the code has it: the returned clusters are sorted by decreasing
    size, and of two clusters of the same size the one listed first is the
    one whose first point comes first in the filtered input, which is the
    order in which the loop over the clustered features creates the entries
    of the map. When the first points of the clusters come in the order of
    the cluster identifiers, clusters of the same size are therefore listed
    by increasing identifier. *)
Theorem clusters_sorted_stable reports epsKm minSamples r :
  analyzeComplianceReports distance dbscan_labels now reports epsKm minSamples = JS.Ok r ->
  StronglySorted size_desc (clusters r) /\
  (forall i a b, clusters r !! i = Some a -> clusters r !! S i = Some b -> size a >= size b) /\
  (forall l1 a l2 b l3,
     clusters r = l1 ++ a :: l2 ++ b :: l3 ->
     size a = size b ->
     before (head (points a)) (head (points b))) /\
  ((forall a b, a ∈ clusters r -> b ∈ clusters r ->
      (cluster_id a < cluster_id b)%Z -> before (head (points a)) (head (points b))) ->
   forall i j a b,
     clusters r !! i = Some a -> clusters r !! j = Some b -> i < j ->
     size a = size b ->
     (cluster_id a < cluster_id b)%Z).
Proof.
  intros Hrun. pose proof (cluster_ids_nodup _ _ _ _ Hrun) as Hnodup.
  apply analyze_inv in Hrun as (features & infos & _ & Hfeat & Hinfos & Hcl & _).
  set (tagged := labelled_points _ _) in *.
  assert (Hsorted : StronglySorted size_desc (clusters r)).
  { rewrite Hcl. apply sort_by_size_sorted. }
  assert (Hties : forall l1 a l2 b l3,
            clusters r = l1 ++ a :: l2 ++ b :: l3 ->
            size a = size b ->
            before (head (points a)) (head (points b))).
  { intros l1 a l2 b l3 Hsplit Hsize.
    apply infos_of_entries in Hinfos as (_ & Hpts & _). rewrite map_map in Hpts.
    simpl in Hpts.
    assert (Hidx : forall i x, tagged !! i = Some x -> index (snd x) = i).
    { intros i [c p] Hi. by eapply labelled_lookup in Hi as (? & _); [|exact Hfeat]. }
    apply heads_in_order in Hidx as [Hord _].
    assert (map (fun k => head (members k tagged)) (keys tagged)
            = map (fun c => head (points c)) infos) as Heq.
    { rewrite <- (map_map points head), Hpts, map_map. done. }
    rewrite Heq in Hord. apply StronglySorted_map in Hord.
    apply (StronglySorted_filter_bool _ (of_size (size a))) in Hord.
    rewrite <- sort_by_size_stable, <- Hcl, Hsplit in Hord.
    rewrite List.filter_app in Hord. simpl in Hord.
    rewrite List.filter_app in Hord. simpl in Hord.
    unfold of_size at 2 4 in Hord. rewrite <- Hsize, Nat.eqb_refl in Hord.
    by apply StronglySorted_pair in Hord. }
  split; [done|]. split; [|split; [exact Hties|]].
  - intros i a b Ha Hb.
    rewrite <- (take_drop_middle _ _ _ Ha) in Hsorted.
    assert (drop (S i) (clusters r) = b :: drop (S (S i)) (clusters r)) as Hd.
    { symmetry. rewrite <- (take_drop_middle (drop (S i) (clusters r)) 0 b).
      - simpl. by rewrite drop_drop, Nat.add_1_r.
      - rewrite lookup_drop, Nat.add_0_r. done. }
    rewrite Hd in Hsorted.
    apply (StronglySorted_pair size_desc _ [] _ a b) in Hsorted. exact Hsorted.
  - intros Hfirst i j a b Ha Hb Hij Hsize.
    destruct (split_at_two _ _ _ _ _ Ha Hb Hij) as (l1 & l2 & l3 & Hsplit).
    pose proof (Hties _ _ _ _ _ Hsplit Hsize) as Hab.
    destruct (Z.lt_trichotomy (cluster_id a) (cluster_id b)) as [Hlt|[Heq|Hgt]]; [done| |].
    + exfalso.
      assert (i = j); [|lia].
      eapply (NoDup_lookup _ i j (cluster_id a) Hnodup).
      * by rewrite list_lookup_fmap, Ha.
      * by rewrite list_lookup_fmap, Hb, Heq.
    + exfalso.
      assert (Hba : before (head (points b)) (head (points a))).
      { apply Hfirst; [by eapply list_elem_of_lookup_2 .. | done]. }
      unfold before in Hab, Hba.
      destruct (head (points a)), (head (points b)); try done. lia.
Qed.

End SortOrder.

(** ** The clustering *)

Section DbscanFacts.

Variable distance : Position -> Position -> JS.number.
Variable pts : list Position.
Variable epsilonKm minPoints : JS.number.

Local Abbreviation neighborhood := (Dbscan.neighborhood distance pts epsilonKm).
Local Abbreviation is_core := (Dbscan.is_core distance pts epsilonKm minPoints).
Local Abbreviation expand := (Dbscan.expand distance pts epsilonKm minPoints).
Local Abbreviation reachable := (Dbscan.reachable distance pts epsilonKm minPoints).
Local Abbreviation closed := (Dbscan.closed distance pts epsilonKm minPoints).
Local Abbreviation scanned := (Dbscan.scanned distance pts epsilonKm minPoints).
Local Abbreviation visit := (Dbscan.visit distance pts epsilonKm minPoints).
Local Abbreviation assigned := Dbscan.assigned.
Local Abbreviation free := Dbscan.free.

Lemma neighbor_lt i j : j ∈ neighborhood i -> j < length pts.
Proof.
  unfold Dbscan.neighborhood.
  intros [Hin _]%list_elem_of_In%filter_In. apply in_seq in Hin. lia.
Qed.

Lemma neighborhood_length i : length (neighborhood i) <= length pts.
Proof.
  unfold Dbscan.neighborhood.
  etransitivity; [apply List.filter_length_le|]. by rewrite length_seq.
Qed.

Lemma neighborhood_out_of_range i : length pts <= i -> neighborhood i = [].
Proof.
  intros Hi. unfold Dbscan.neighborhood.
  assert (forall j, Dbscan.within distance pts epsilonKm i j = false) as Hf.
  { intros j. unfold Dbscan.within. by rewrite (lookup_ge_None_2 pts i). }
  induction (seq 0 (length pts)) as [|j l IH]; simpl; [done|]. by rewrite Hf.
Qed.

Lemma free_le ls : free ls <= length ls.
Proof. apply List.filter_length_le. Qed.

Lemma free_insert ls j c :
  ls !! j = Some None -> S (free (<[j := Some c]> ls)) = free ls.
Proof.
  unfold Dbscan.free. revert j. induction ls as [|l ls IH]; intros [|j] H; simpl in *;
    try discriminate.
  - by injection H as ->.
  - destruct (Dbscan.is_free l); simpl; by rewrite <- (IH j H).
Qed.

(** What absorbing a worklist into cluster [c] does, when the fuel covers
    the points still free and the worklist. *)
Lemma expand_spec c fuel :
  forall work ls,
    free ls * S (length pts) + length work <= fuel ->
    length ls = length pts ->
    Forall reachable work ->
    closed ls work ->
    let ls' := expand fuel c work ls in
    length ls' = length pts /\
    (forall j c', ls !! j = Some (Some c') -> ls' !! j = Some (Some c')) /\
    (forall j c', ls' !! j = Some (Some c') ->
       ls !! j = Some (Some c') \/ (c' = c /\ ls !! j = Some None /\ reachable j)) /\
    (forall j, j ∈ work -> j < length pts -> assigned ls' j) /\
    closed ls' [].
Proof.
  induction fuel as [|fuel IH]; intros work ls Hfuel Hlen Hreach Hclosed.
  { assert (work = []) as -> by (destruct work; [done | simpl in Hfuel; lia]).
    simpl. repeat split; auto. intros j Hj. by apply elem_of_nil in Hj. }
  destruct work as [|j rest].
  { simpl. repeat split; auto. intros j Hj. by apply elem_of_nil in Hj. }
  apply Forall_cons in Hreach as [Hj Hrest]. simpl in Hfuel.
  cbn [Dbscan.expand].
  destruct (ls !! j) as [[cj|]|] eqn:Hlj.
  - (* already in a cluster *)
    destruct (IH rest ls) as (H1 & H2 & H3 & H4 & H5); [lia | done | done | |].
    { intros q p Hq Hcore Hp. destruct (Hclosed q p Hq Hcore Hp) as [?|Hin]; [by left|].
      apply elem_of_cons in Hin as [->|?]; [left; by exists cj | by right]. }
    repeat split; auto.
    intros k [->|Hk]%elem_of_cons Hlt; [|by apply H4].
    exists cj. by apply H2.
  - (* free: absorbed now *)
    assert (Hjlt : j < length ls) by (by eapply lookup_lt_Some).
    pose proof (free_insert ls j c Hlj) as Hfree.
    set (ls1 := <[j := Some c]> ls) in *.
    assert (Hlen1 : length ls1 = length pts) by (unfold ls1; by rewrite length_insert).
    assert (Hkeep : forall k c', ls !! k = Some (Some c') -> ls1 !! k = Some (Some c')).
    { intros k c' Hk. unfold ls1. rewrite list_lookup_insert_ne; [done|]. congruence. }
    assert (Hj1 : ls1 !! j = Some (Some c)) by (by apply list_lookup_insert_eq).
    assert (Hback : forall k c', ls1 !! k = Some (Some c') ->
              ls !! k = Some (Some c') \/ (k = j /\ c' = c)).
    { intros k c' Hk. destruct (decide (j = k)) as [<-|Hne].
      - right. split; [done | congruence].
      - left. unfold ls1 in Hk. by rewrite list_lookup_insert_ne in Hk. }
    assert (Hclosed1 : forall extra, (is_core j = true -> forall p, p ∈ neighborhood j -> p ∈ extra) ->
              closed ls1 (extra ++ rest)).
    { intros extra Hextra q p [cq Hq] Hcore Hp.
      destruct (Hback _ _ Hq) as [Hq'|[-> _]].
      - destruct (Hclosed q p (ex_intro _ cq Hq') Hcore Hp) as [[cp Hcp]|Hin].
        + left. exists cp. by apply Hkeep.
        + apply elem_of_cons in Hin as [->|Hin]; [left; by exists c|].
          right. apply elem_of_app. by right.
      - right. apply elem_of_app. left. by apply Hextra. }
    destruct (is_core j) eqn:Hcore.
    + destruct (IH (neighborhood j ++ rest) ls1) as (H1 & H2 & H3 & H4 & H5).
      * rewrite length_app. pose proof (neighborhood_length j).
        assert (free ls1 * S (length pts) + S (length pts) = free ls * S (length pts)) by lia.
        lia.
      * done.
      * apply Forall_app. split; [|done]. apply Forall_forall. intros p Hp.
        right. exists j. done.
      * apply Hclosed1. auto.
      * repeat split; auto.
        -- intros k c' Hk. destruct (H3 k c' Hk) as [Hk1|(-> & Hk1 & Hr)].
           ++ destruct (Hback _ _ Hk1) as [?|[-> ->]]; [by left | right; done].
           ++ right. split; [done|]. split; [|done].
              unfold ls1 in Hk1. destruct (decide (j = k)) as [<-|Hne]; [congruence|].
              by rewrite list_lookup_insert_ne in Hk1.
        -- intros k [->|Hk]%elem_of_cons Hlt.
           ++ exists c. by apply H2.
           ++ apply H4; [|done]. apply elem_of_app. by right.
    + destruct (IH rest ls1) as (H1 & H2 & H3 & H4 & H5).
      * assert (free ls1 * S (length pts) + S (length pts) = free ls * S (length pts)) by lia.
        lia.
      * done.
      * done.
      * apply (Hclosed1 []). discriminate.
      * repeat split; auto.
        -- intros k c' Hk. destruct (H3 k c' Hk) as [Hk1|(-> & Hk1 & Hr)].
           ++ destruct (Hback _ _ Hk1) as [?|[-> ->]]; [by left | right; done].
           ++ right. split; [done|]. split; [|done].
              unfold ls1 in Hk1. destruct (decide (j = k)) as [<-|Hne]; [congruence|].
              by rewrite list_lookup_insert_ne in Hk1.
        -- intros k [->|Hk]%elem_of_cons Hlt.
           ++ exists c. by apply H2.
           ++ by apply H4.
  - (* not a point *)
    apply lookup_ge_None in Hlj.
    destruct (IH rest ls) as (H1 & H2 & H3 & H4 & H5); [lia | done | done | |].
    { intros q p Hq Hcore Hp. destruct (Hclosed q p Hq Hcore Hp) as [?|Hin]; [by left|].
      apply elem_of_cons in Hin as [->|?]; [|by right].
      apply neighbor_lt in Hp. lia. }
    repeat split; auto.
    intros k [->|Hk]%elem_of_cons Hlt; [lia | by apply H4].
Qed.

Lemma scanned_step i ls next :
  scanned i (ls, next) ->
  (is_core i = true -> assigned ls i) ->
  scanned (S i) (ls, next).
Proof.
  intros (Hlen & Hcores & Hclosed & Hlabels) Hi.
  split; [done|]. split; [|split; done].
  intros j Hj Hc. simpl in *.
  destruct (decide (j = i)) as [->|]; [by apply Hi | apply Hcores; [lia | done]].
Qed.

Lemma visit_scanned i st :
  i < length pts -> scanned i st -> scanned (S i) (visit st i).
Proof.
  destruct st as [ls next]. intros Hi Hst. unfold Dbscan.visit.
  destruct (ls !! i) as [[ci|]|] eqn:Hli.
  - apply scanned_step; [done|]. intros _. by exists ci.
  - destruct (is_core i) eqn:Hcore; [|apply scanned_step; [done | congruence]].
    destruct Hst as (Hlen & Hcores & Hclosed & Hlabels). simpl in *.
    destruct (expand_spec next (Dbscan.enough_fuel pts) [i] ls) as (H1 & H2 & H3 & H4 & H5).
    { unfold Dbscan.enough_fuel. pose proof (free_le ls). simpl. nia. }
    { done. }
    { constructor; [by left | constructor]. }
    { intros q p Hq Hc Hp. destruct (Hclosed q p Hq Hc Hp) as [?|Hin]; [by left|].
      by apply elem_of_nil in Hin. }
    assert (Hseed : expand (Dbscan.enough_fuel pts) next [i] ls !! i = Some (Some next)).
    { destruct (H4 i) as [c Hc]; [left | done |].
      destruct (H3 _ _ Hc) as [?|(-> & _)]; [congruence | done]. }
    split; [done|]. split; [|split; [done|]]; simpl.
    + intros j Hj Hc. destruct (decide (j = i)) as [->|].
      * by exists next.
      * destruct (Hcores j) as [c Hjc]; [lia | done|]. exists c. by apply H2.
    + intros j c Hjc. destruct (H3 _ _ Hjc) as [Hold|(-> & _ & Hr)].
      * apply Hlabels in Hold as (Hr & Hlt & s & Hs & Hsc & Hnb).
        split; [done|]. split; [lia|]. exists s. split; [done|]. split; [by apply H2|].
        intros p Hp. destruct (Hnb p Hp) as (c' & Hc' & Hle). exists c'.
        split; [by apply H2 | done].
      * split; [done|]. split; [lia|]. exists i. split; [done|]. split; [done|].
        intros p Hp.
        destruct (H5 i p (ex_intro _ next Hseed) Hcore Hp) as [[c' Hc']|Hin];
          [|by apply elem_of_nil in Hin].
        exists c'. split; [done|].
        destruct (H3 _ _ Hc') as [Hold|(-> & _)]; [|done].
        apply Hlabels in Hold as (_ & ? & _). lia.
  - apply lookup_ge_None in Hli. destruct Hst as (Hlen & _). simpl in *. lia.
Qed.

Lemma scan_prefix k :
  k <= length pts ->
  scanned k (fold_left visit (seq 0 k) (replicate (length pts) None, 0)).
Proof.
  induction k as [|k IH]; intros Hk.
  - simpl. split; [apply length_replicate|]. split; [|split]; simpl.
    + intros j Hj. lia.
    + intros q p [c Hq]. apply lookup_replicate in Hq as [? _]. done.
    + intros j c Hjc. apply lookup_replicate in Hjc as [? _]. done.
  - rewrite seq_S, fold_left_app. simpl. apply visit_scanned; [lia|]. apply IH. lia.
Qed.

Lemma scan_scanned :
  scanned (length pts) (Dbscan.scan distance pts epsilonKm minPoints).
Proof. by apply scan_prefix. Qed.

Lemma core_in_range q p : p ∈ neighborhood q -> q < length pts.
Proof.
  intros Hp. destruct (Nat.lt_ge_cases q (length pts)) as [|Hge]; [done|].
  rewrite neighborhood_out_of_range in Hp by done. by apply elem_of_nil in Hp.
Qed.

(** The labelling the scan ends with: a point is in a cluster exactly when
    it is a core point or a neighbour of one, and every cluster in use
    holds a core point whose neighbours are all in that cluster or in one
    opened before it. *)
Lemma scan_labels :
  let ls := fst (Dbscan.scan distance pts epsilonKm minPoints) in
  length ls = length pts /\
  (forall j, j < length pts -> (assigned ls j <-> reachable j)) /\
  (forall j c, ls !! j = Some (Some c) ->
     exists s, is_core s = true /\ ls !! s = Some (Some c) /\
               forall p, p ∈ neighborhood s ->
                         exists c', ls !! p = Some (Some c') /\ c' <= c).
Proof.
  destruct scan_scanned as (Hlen & Hcores & Hclosed & Hlabels).
  simpl. split; [done|]. split.
  - intros j Hj. split.
    + intros [c Hc]. by apply Hlabels in Hc as (? & _).
    + intros [Hc | (q & Hq & Hp)]; [by apply Hcores|].
      assert (assigned (fst (Dbscan.scan distance pts epsilonKm minPoints)) q) as Hqa.
      { apply Hcores; [|done]. by eapply core_in_range. }
      destruct (Hclosed q j Hqa Hq Hp) as [?|Hin]; [done|]. by apply elem_of_nil in Hin.
  - intros j c Hc. by apply Hlabels in Hc as (_ & _ & ?).
Qed.

End DbscanFacts.

(** ** A larger epsilon leaves no more noise *)

Section DbscanMonotone.

Variable distance : Position -> Position -> JS.number.
Variable pts : list Position.
Variable minPoints eps1 eps2 : JS.number.
Hypothesis eps_le : JS.leb eps1 eps2 = true.

Lemma leb_trans a b c : JS.leb a b = true -> JS.leb b c = true -> JS.leb a c = true.
Proof.
  destruct a as [|x], b as [|y], c as [|z]; simpl; try discriminate.
  rewrite !Qle_bool_iff. intros. lra.
Qed.

Lemma within_mono i j :
  Dbscan.within distance pts eps1 i j = true -> Dbscan.within distance pts eps2 i j = true.
Proof.
  unfold Dbscan.within. destruct (pts !! i), (pts !! j); try done.
  intros H. by eapply leb_trans.
Qed.

Lemma filter_length_mono {A : Type} (f g : A -> bool) (l : list A) :
  (forall x, f x = true -> g x = true) ->
  length (List.filter f l) <= length (List.filter g l).
Proof.
  intros Hfg. induction l as [|x l IH]; simpl; [done|].
  destruct (f x) eqn:Hf.
  - rewrite (Hfg x Hf). simpl. lia.
  - destruct (g x); simpl; lia.
Qed.

Lemma neighborhood_mono i j :
  j ∈ Dbscan.neighborhood distance pts eps1 i -> j ∈ Dbscan.neighborhood distance pts eps2 i.
Proof.
  unfold Dbscan.neighborhood. rewrite !list_elem_of_In, !filter_In.
  intros [? ?]. split; [done | by apply within_mono].
Qed.

Lemma core_mono i :
  Dbscan.is_core distance pts eps1 minPoints i = true ->
  Dbscan.is_core distance pts eps2 minPoints i = true.
Proof.
  unfold Dbscan.is_core, JS.geb. intros H. eapply leb_trans; [exact H|].
  unfold JS.of_nat. simpl. apply Qle_bool_iff. rewrite <- Zle_Qle.
  apply Nat2Z.inj_le. unfold Dbscan.neighborhood.
  apply filter_length_mono, within_mono.
Qed.

Lemma reachable_mono j :
  Dbscan.reachable distance pts eps1 minPoints j ->
  Dbscan.reachable distance pts eps2 minPoints j.
Proof.
  intros [Hc | (q & Hq & Hj)].
  - left. by apply core_mono.
  - right. exists q. split; [by apply core_mono | by apply neighborhood_mono].
Qed.

Lemma free_mono (l1 l2 : list (option nat)) :
  length l1 = length l2 ->
  (forall j, l2 !! j = Some None -> l1 !! j = Some None) ->
  Dbscan.free l2 <= Dbscan.free l1.
Proof.
  unfold Dbscan.free. revert l2. induction l1 as [|a l1 IH]; intros [|b l2] Hlen H;
    try discriminate; [done|].
  simpl in Hlen. injection Hlen as Hlen.
  specialize (IH l2 Hlen (fun j => H (S j))). specialize (H 0). simpl in *.
  destruct b as [cb|]; simpl.
  - destruct (Dbscan.is_free a); simpl; lia.
  - injection (H eq_refl) as ->. simpl. lia.
Qed.

(** With the larger epsilon, the points left out of every cluster are among
    those left out with the smaller one. *)
Lemma noise_shrinks :
  Dbscan.free (fst (Dbscan.scan distance pts eps2 minPoints))
  <= Dbscan.free (fst (Dbscan.scan distance pts eps1 minPoints)).
Proof.
  destruct (scan_labels distance pts eps1 minPoints) as (Hlen1 & Hiff1 & _).
  destruct (scan_labels distance pts eps2 minPoints) as (Hlen2 & Hiff2 & _).
  apply free_mono; [congruence|]. intros j Hj2.
  assert (j < length pts) as Hj by (rewrite <- Hlen2; by eapply lookup_lt_Some).
  destruct (lookup_lt_is_Some_2 (fst (Dbscan.scan distance pts eps1 minPoints)) j) as [[c|] Hj1];
    [by rewrite Hlen1 | | done].
  exfalso.
  assert (Dbscan.assigned (fst (Dbscan.scan distance pts eps2 minPoints)) j) as [c' Hc'].
  { apply Hiff2; [done|]. apply reachable_mono. apply Hiff1; [done|]. by exists c. }
  congruence.
Qed.

End DbscanMonotone.

(** ** The service on top of the clustering *)

Section AnalyzeFacts.

Variable distance : Position -> Position -> JS.number.

Lemma labels_length pts eps m : length (Dbscan.labels distance pts eps m) = length pts.
Proof.
  unfold Dbscan.labels. rewrite length_map.
  by destruct (scan_labels distance pts eps m) as (? & _).
Qed.

Lemma filter_length_aligned {A B : Type} (f : A -> bool) (g : B -> bool)
    (l1 : list A) (l2 : list B) :
  length l1 = length l2 ->
  (forall i x y, l1 !! i = Some x -> l2 !! i = Some y -> f x = g y) ->
  length (List.filter f l1) = length (List.filter g l2).
Proof.
  revert l2. induction l1 as [|x l1 IH]; intros [|y l2] Hlen H; try discriminate; [done|].
  simpl in Hlen. injection Hlen as Hlen. simpl.
  rewrite (H 0 x y eq_refl eq_refl).
  specialize (IH l2 Hlen (fun i => H (S i))).
  destruct (g y); simpl; by rewrite IH.
Qed.

(** The label read from a feature is the one the scan gave its point. *)
Lemma tagged_label rwl features eps m i c p :
  JS.map_indexed to_feature rwl = JS.Ok features ->
  labelled_points rwl (clustersDbscan (Dbscan.labels distance) features eps m) !! i
    = Some (c, p) ->
  exists l,
    fst (Dbscan.scan distance (map geometry_coordinates features) eps m) !! i = Some l /\
    c = Z.of_nat <$> l.
Proof.
  intros Hfeat Hi. pose proof Hi as Hlt%lookup_lt_Some.
  rewrite labelled_length in Hlt by done.
  eapply labelled_lookup in Hi as (_ & -> & _); [|exact Hfeat].
  apply map_from_ok in Hfeat as [Hlen _].
  destruct (scan_labels distance (map geometry_coordinates features) eps m) as (Hl & _).
  rewrite length_map in Hl.
  destruct (lookup_lt_is_Some_2
              (fst (Dbscan.scan distance (map geometry_coordinates features) eps m)) i)
    as [l Hlook]; [lia|].
  exists l. split; [done|]. unfold Dbscan.labels.
  by rewrite list_lookup_fmap, Hlook.
Qed.

Lemma noise_label_free (l : option nat) : is_noise_label (Z.of_nat <$> l) = Dbscan.is_free l.
Proof. destruct l as [c|]; simpl; [|done]. apply Z.eqb_neq. lia. Qed.

(** The noise points are the points the scan left free. *)
Lemma noise_count now reports eps m r :
  analyze distance now reports eps m = JS.Ok r ->
  exists features,
    JS.map_indexed to_feature (List.filter has_valid_location reports) = JS.Ok features /\
    n_noise_points (summary r) = length (noise_points r) /\
    length (noise_points r) =
      Dbscan.free (fst (Dbscan.scan distance (map geometry_coordinates features) eps m)).
Proof.
  intros (features & infos & _ & Hfeat & _ & _ & Hnoise & _ & _ & Hn & _)%analyze_inv.
  exists features. split; [done|]. split; [congruence|].
  rewrite Hnoise. unfold noise_of, Dbscan.free. rewrite length_map.
  apply filter_length_aligned.
  - rewrite labelled_length by done.
    destruct (scan_labels distance (map geometry_coordinates features) eps m) as (Hl & _).
    rewrite length_map in Hl. apply map_from_ok in Hfeat as [Hlen _]. lia.
  - intros i [c p] l Hi Hl.
    eapply tagged_label in Hi as (l' & Hl' & ->); [|exact Hfeat].
    simpl. assert (l' = l) as -> by congruence. apply noise_label_free.
Qed.

(** C4: with the reports and [minPoints] fixed, a larger epsilon gives no
    more noise points than a smaller one. *)
Theorem noise_monotone now1 now2 reports eps1 eps2 m r1 r2 :
  analyze distance now1 reports eps1 m = JS.Ok r1 ->
  analyze distance now2 reports eps2 m = JS.Ok r2 ->
  JS.leb eps1 eps2 = true ->
  n_noise_points (summary r2) <= n_noise_points (summary r1) /\
  length (noise_points r2) <= length (noise_points r1).
Proof.
  intros (f1 & Hf1 & Hn1 & Hc1)%noise_count (f2 & Hf2 & Hn2 & Hc2)%noise_count Hle.
  assert (f2 = f1) as -> by congruence.
  rewrite Hn1, Hn2, Hc1, Hc2. split; by apply noise_shrinks.
Qed.

Lemma filter_length_perm {A : Type} (f : A -> bool) (l1 l2 : list A) :
  l1 ≡ₚ l2 -> length (List.filter f l1) = length (List.filter f l2).
Proof.
  induction 1 as [|x l1 l2 _ IH|x y l|l1 l2 l3 _ IH1 _ IH2]; simpl.
  - done.
  - destruct (f x); simpl; by rewrite IH.
  - destruct (f x), (f y); done.
  - congruence.
Qed.

Lemma filter_length_aligned_le {A B : Type} (f : A -> bool) (g : B -> bool)
    (l1 : list A) (l2 : list B) :
  length l1 = length l2 ->
  (forall i x y, l1 !! i = Some x -> l2 !! i = Some y -> f x = true -> g y = true) ->
  length (List.filter f l1) <= length (List.filter g l2).
Proof.
  revert l2. induction l1 as [|x l1 IH]; intros [|y l2] Hlen H; try discriminate; [done|].
  simpl in Hlen. injection Hlen as Hlen. simpl.
  specialize (IH l2 Hlen (fun i => H (S i))). specialize (H 0 x y eq_refl eq_refl).
  destruct (f x); simpl.
  - rewrite H by done. simpl. lia.
  - destruct (g y); simpl; lia.
Qed.

Lemma geb_of_nat_mono (n1 n2 : nat) (m : JS.number) :
  n1 <= n2 -> JS.geb (JS.of_nat n1) m = true -> JS.geb (JS.of_nat n2) m = true.
Proof.
  unfold JS.geb, JS.of_nat. destruct m as [|q]; simpl; [done|].
  rewrite !Qle_bool_iff. intros Hle Hq.
  assert (inject_Z (Z.of_nat n1) <= inject_Z (Z.of_nat n2))%Q.
  { rewrite <- Zle_Qle. lia. }
  lra.
Qed.

(** C3, as the clustering has it: every returned cluster has a size equal
    to the number of its points, at least 1, and holds a core point, that
    is a point with at least [minPoints] of the returned points within
    [epsKm] of it; each of those points is in this cluster or in one with a
    smaller identifier, so the cluster numbered 0 has at least [minPoints]
    points. *)
Theorem cluster_holds_core_point now reports eps m r c :
  analyze distance now reports eps m = JS.Ok r ->
  c ∈ clusters r ->
  size c = length (points c) /\
  1 <= size c /\
  (exists p,
     p ∈ points c /\
     JS.geb (JS.of_nat (neighbours_in_result distance eps r p)) m = true /\
     forall q, q ∈ all_points r ->
               JS.leb (distance (coordinates p) (coordinates q)) eps = true ->
               (0 <= clusterId q <= cluster_id c)%Z) /\
  (cluster_id c = 0%Z -> JS.geb (JS.of_nat (size c)) m = true).
Proof.
  intros Hrun Hc.
  destruct (cluster_origin _ _ _ _ _ _ _ _ Hrun Hc) as (features & k & Hfeat & Hk & Hinfo).
  destruct (all_points_perm _ _ _ _ _ _ _ Hrun) as (features' & Hfeat' & Hall).
  cbv zeta in Hfeat'. rewrite Hfeat in Hfeat'. injection Hfeat' as <-.
  apply cluster_info_ok in Hinfo as (Hid & Hpts & Hsize & _). simpl in *.
  set (rwl := List.filter has_valid_location reports) in *.
  set (tagged := labelled_points rwl _) in *.
  set (pts := map geometry_coordinates features) in *.
  rewrite Hpts, Hsize, Hid. split; [done|]. split.
  { pose proof (members_nonempty k tagged Hk) as Hne.
    destruct (members k tagged) as [|? ?]; [done | simpl]. apply le_n_S, Nat.le_0_l. }
  pose proof Hk as (Hk1 & [c0 p0] & [j Hj]%list_elem_of_lookup & Hfst)%elem_of_keys.
  simpl in Hfst. subst c0.
  pose proof Hj as Hj'. eapply tagged_label in Hj' as ([l|] & Hl & Hkl); [| |exact Hfeat]; [|done].
  injection Hkl as ->.
  destruct (scan_labels distance pts eps m) as (Hlen & _ & Hseed).
  destruct (Hseed _ _ Hl) as (s & Hcore & Hs & Hnb).
  assert (Hlenf : length features = length rwl) by (by apply map_from_ok in Hfeat as [? _]).
  assert (Hlenp : length pts = length features) by (unfold pts; apply length_map).
  assert (Hlent : length tagged = length rwl) by (unfold tagged; by rewrite labelled_length).
  assert (Hslt : s < length tagged).
  { apply lookup_lt_Some in Hs. lia. }
  destruct (lookup_lt_is_Some_2 tagged s Hslt) as [[cs ps] Hps].
  pose proof Hps as Hps'. eapply tagged_label in Hps' as (l' & Hl' & ->); [|exact Hfeat].
  fold pts in Hl'. assert (l' = Some l) as -> by congruence. simpl in Hps.
  pose proof Hps as Hcs. eapply labelled_lookup in Hcs as (_ & _ & Hcs & _); [|exact Hfeat].
  fold pts in Hcs.
  assert (Hwithin : forall i ci qi, tagged !! i = Some (ci, qi) ->
            Dbscan.within distance pts eps s i
            = JS.leb (distance (coordinates ps) (coordinates qi)) eps).
  { intros i ci qi Hi.
    eapply labelled_lookup in Hi as (_ & _ & Hci & _); [|exact Hfeat].
    fold pts in Hci. unfold Dbscan.within. by rewrite Hcs, Hci. }
  assert (Hcount : neighbours_in_result distance eps r ps
                   = length (Dbscan.neighborhood distance pts eps s)).
  { unfold neighbours_in_result, Dbscan.neighborhood.
    rewrite (filter_length_perm _ _ _ Hall).
    apply filter_length_aligned.
    - rewrite length_map, length_seq. lia.
    - intros i q y Hq Hy. apply lookup_seq in Hy as [-> _]. simpl.
      rewrite list_lookup_fmap in Hq.
      destruct (tagged !! i) as [[ci qi]|] eqn:Hi; [|done]. injection Hq as <-. simpl.
      symmetry. by eapply Hwithin. }
  assert (Hnear : forall i ci qi, tagged !! i = Some (ci, qi) ->
            JS.leb (distance (coordinates ps) (coordinates qi)) eps = true ->
            exists c', ci = Some (Z.of_nat c') /\ c' <= l).
  { intros i ci qi Hi Hd. pose proof Hi as Hlt%lookup_lt_Some.
    destruct (Hnb i) as (c' & Hc' & Hle).
    { unfold Dbscan.neighborhood. apply list_elem_of_In, filter_In. split.
      - apply in_seq. lia.
      - by erewrite Hwithin. }
    pose proof Hi as Hi'. eapply tagged_label in Hi' as (li & Hli & ->); [|exact Hfeat].
    fold pts in Hli. exists c'. split; [|done].
    assert (li = Some c') as -> by congruence. done. }
  split.
  - exists ps. split; [apply members_elem; by eapply list_elem_of_lookup_2|].
    split; [by rewrite Hcount|].
    intros q Hq Hd. rewrite Hall in Hq.
    apply list_elem_of_In, in_map_iff in Hq as ([cq q'] & <- & [i Hi]%list_elem_of_In%list_elem_of_lookup).
    simpl in *. destruct (Hnear _ _ _ Hi Hd) as (c' & -> & Hle).
    eapply labelled_lookup in Hi as (_ & _ & _ & ? & ? & ? & ? & _ & _ & _ & _ & _ & _ & _ & _ & Hcid);
      [|exact Hfeat].
    rewrite Hcid. simpl. lia.
  - intros Hzero. assert (l = 0) as -> by lia.
    apply (geb_of_nat_mono (length (Dbscan.neighborhood distance pts eps s)));
      [|exact Hcore].
    unfold Dbscan.neighborhood, members. rewrite length_map.
    apply filter_length_aligned_le.
    + rewrite length_seq. lia.
    + intros i y [ci qi] Hy Hi Hw. apply lookup_seq in Hy as [-> _]. simpl in *.
      erewrite Hwithin in Hw by exact Hi.
      destruct (Hnear _ _ _ Hi Hw) as (c' & -> & Hle).
      unfold has_label. simpl. apply Z.eqb_eq. lia.
Qed.

End AnalyzeFacts.

(** ** The service returns on every well-formed batch *)

Section Totality.

Variable distance : Position -> Position -> JS.number.
Variable dbscan_labels : list Position -> JS.number -> JS.number -> list (option Z).
Variable now : JS.ISOString.

Lemma max_radius_total cx cy pts :
  (forall p, p ∈ pts -> exists la lo, lat p = JS.Num la /\ lng p = JS.Num lo) ->
  forall m, exists r, max_radius distance (JS.Num cx) (JS.Num cy) m pts = JS.Ok r.
Proof.
  induction pts as [|p pts IH]; intros Hnum m; simpl; [eauto|].
  destruct (Hnum p) as (la & lo & -> & ->); [left|]. simpl.
  apply IH. intros q Hq. apply Hnum. by right.
Qed.

Lemma cluster_compliance_total pts :
  (forall p, p ∈ pts -> exists rep, report p = Some rep) ->
  forall stats, exists s, cluster_compliance stats pts = JS.Ok s.
Proof.
  induction pts as [|p pts IH]; intros Hrep stats; simpl; [eauto|].
  destruct (Hrep p) as (rep & ->); [left|].
  apply IH. intros q Hq. apply Hrep. by right.
Qed.

Lemma cluster_info_total k pts :
  pts <> [] ->
  (forall p, p ∈ pts -> exists la lo, lat p = JS.Num la /\ lng p = JS.Num lo) ->
  (forall p, p ∈ pts -> exists rep, report p = Some rep) ->
  exists c, cluster_info distance (k, pts) = JS.Ok c.
Proof.
  intros Hne Hnum Hrep. unfold cluster_info.
  destruct (numeric_list lat pts) as [lats Hlats]; [intros p Hp; destruct (Hnum p Hp) as (? & ? & ? & ?); eauto|].
  destruct (numeric_list lng pts) as [lngs Hlngs]; [intros p Hp; destruct (Hnum p Hp) as (? & ? & ? & ?); eauto|].
  destruct (center_is_mean lat pts lats Hne Hlats) as (clat & -> & _).
  destruct (center_is_mean lng pts lngs Hne Hlngs) as (clng & -> & _).
  destruct (max_radius_total clng clat pts Hnum (JS.Num 0)) as (rad & ->). simpl.
  destruct (cluster_compliance_total pts Hrep
              {| compliant := 0; non_compliant := 0; fraudulent := 0 |}) as (st & ->).
  simpl. eauto.
Qed.

Lemma analyze_total reports epsKm minSamples :
  well_formed reports ->
  (exists rep, rep ∈ reports /\ geolocated rep) ->
  exists r,
    analyzeComplianceReports distance dbscan_labels now reports epsKm minSamples = JS.Ok r.
Proof.
  intros Hwf (rep0 & Hin0 & Hgeo0).
  set (rwl := List.filter has_valid_location reports).
  assert (Hrwl : forall rep, rep ∈ rwl -> rep ∈ reports /\ geolocated rep).
  { intros rep [Hin Hv]%list_elem_of_In%filter_In. apply list_elem_of_In in Hin.
    split; [done|]. apply kept_typed_geolocated; [by apply Hwf|].
    by apply has_valid_location_spec. }
  assert (Hne : length rwl <> 0).
  { assert (rep0 ∈ rwl) as Hin.
    { apply list_elem_of_In, filter_In. split; [by apply list_elem_of_In|].
      by apply has_valid_location_spec, geolocated_kept. }
    destruct rwl; [by apply elem_of_nil in Hin | done]. }
  destruct (map_from_total to_feature rwl 0) as (features & Hfeat).
  { intros j rep Hj. apply list_elem_of_lookup_2, Hrwl in Hj as [Hin Hg].
    apply to_feature_total; [done | by apply Hwf]. }
  fold (JS.map_indexed to_feature rwl) in Hfeat.
  unfold analyzeComplianceReports. fold rwl.
  destruct (Nat.eqb_spec (length rwl) 0) as [|_]; [done|].
  rewrite Hfeat. simpl. unfold group_points. rewrite group_fold.
  set (tagged := labelled_points rwl _).
  destruct (map_from_total (fun _ => cluster_info distance)
              (map (fun k => (k, members k tagged)) (keys tagged)) 0) as (infos & Hinfos).
  { intros j [k ps] Hj. rewrite list_lookup_fmap in Hj.
    destruct (keys tagged !! j) as [k'|] eqn:Hk; [|done]. injection Hj as <- <-.
    apply list_elem_of_lookup_2 in Hk.
    apply cluster_info_total.
    - by apply members_nonempty.
    - intros p Hp. eapply member_numeric; eauto.
    - intros p [i Hi]%members_elem%list_elem_of_lookup.
      eapply labelled_lookup in Hi as (_ & _ & _ & rep & ? & ? & ? & _ & Hr & _);
        [|exact Hfeat].
      eauto. }
  fold (JS.map_indexed (fun _ : nat => cluster_info distance)
          (map (fun k => (k, members k tagged)) (keys tagged))) in Hinfos.
  rewrite Hinfos. simpl. eauto.
Qed.

End Totality.

Section Degenerate.

Variable distance : Position -> Position -> JS.number.
Variable pts : list Position.
Variable epsilonKm minPoints : JS.number.





End Degenerate.

Section AnalyzeTotal.

Variable distance : Position -> Position -> JS.number.

Lemma analyze_filter_idem dbscan_labels now reports epsKm minSamples :
  analyzeComplianceReports distance dbscan_labels now
    (List.filter has_valid_location reports) epsKm minSamples
  = analyzeComplianceReports distance dbscan_labels now reports epsKm minSamples.
Proof.
  unfold analyzeComplianceReports.
  assert (List.filter has_valid_location (List.filter has_valid_location reports)
          = List.filter has_valid_location reports) as ->; [|done].
  induction reports as [|rep reports IH]; simpl; [done|].
  destruct (has_valid_location rep) eqn:E; simpl; [|done]. by rewrite E, IH.
Qed.



End AnalyzeTotal.


(** ** The handler *)

Section HandlerFacts.

Variable getMany : option string -> JS.result (list AnalyticsComplianceReport).
Variable engine :
  list AnalyticsComplianceReport -> JS.number -> JS.number -> JS.result AnalyticsResults.

Lemma or_else_number a q : JS.truthy (JS.Num q) = true -> exists x, JS.or_else a (JS.Num q) = JS.Num x.
Proof.
  intros Hq. unfold JS.or_else. destruct a as [|x]; simpl; [eauto|].
  destruct (negb (Qeq_bool x 0)); eauto.
Qed.

Lemma not_gtb_leb x : JS.gtb (JS.Num x) (JS.Num 0) = false -> JS.leb (JS.Num x) (JS.Num 0) = true.
Proof. unfold JS.gtb, JS.ltb, JS.leb. by intros ->%negb_false_iff. Qed.

(** The reports the handler hands to the engine have coordinates of type
    [number]: a [null] coordinate does not reach the service through it. *)
Lemma handler_calls_typed q resp calls :
  Handler.analyzeCompliance getMany engine q = (resp, calls) ->
  forall call rep, call ∈ calls -> rep ∈ fst (fst call) -> typed rep.
Proof.
  unfold Handler.analyzeCompliance.
  assert (Hfilter : forall reports rep,
            rep ∈ List.filter Handler.has_numeric_location reports -> typed rep).
  { intros reports rep [_ Hnum]%list_elem_of_In%filter_In.
    unfold Handler.has_numeric_location in Hnum. unfold typed.
    destruct (location rep) as [| |loc]; try done.
    destruct (latitude loc), (longitude loc); done. }
  destruct (_ || _); [intros [= <- <-] call rep Hc; by apply elem_of_nil in Hc|].
  destruct (getMany _) as [reports|e];
    [|intros [= <- <-] call rep Hc; by apply elem_of_nil in Hc].
  destruct (length reports =? 0);
    [intros [= <- <-] call rep Hc; by apply elem_of_nil in Hc|].
  destruct (engine _ _ _); intros [= <- <-] call rep ->%list_elem_of_singleton Hrep;
    simpl in Hrep; by eapply Hfilter.
Qed.

(** C10: when the parsed [maxDistance] is not greater than 0 or the parsed
    [minPoints] is less than 1, the handler answers 400 and makes no call
    to the clustering engine. *)
Theorem invalid_parameters_rejected q :
  JS.gtb (Handler.parsed_maxDistance q) (JS.Num 0) = false \/
  JS.ltb (Handler.parsed_minPoints q) (JS.Num 1) = true ->
  Handler.analyzeCompliance getMany engine q =
    ({| Handler.http_status := 400; Handler.body := Handler.InvalidParameters |}, []).
Proof.
  intros H. unfold Handler.analyzeCompliance.
  assert (JS.leb (Handler.parsed_maxDistance q) (JS.Num 0)
          || JS.ltb (Handler.parsed_minPoints q) (JS.Num 1) = true) as ->; [|done].
  apply orb_true_iff. destruct H as [H|H]; [left | by right].
  destruct (or_else_number (Handler.maxDistance q) 1000 eq_refl) as (x & Hx).
  unfold Handler.parsed_maxDistance in *. rewrite Hx in *. by apply not_gtb_leb.
Qed.

End HandlerFacts.

(** ** The statements at work on the sample data *)

Lemma grid_distance_nonneg (x1 y1 x2 y2 : Q) :
  exists d, grid_distance (JS.Num x1, JS.Num y1) (JS.Num x2, JS.Num y2) = JS.Num d /\ (0 <= d)%Q.
Proof.
  eexists. split; [reflexivity|].
  pose proof (Qabs_nonneg (x1 - x2)). pose proof (Qabs_nonneg (y1 - y2)).
  unfold km_per_degree. apply Qmult_le_0_compat; [done | lra].
Qed.

Lemma grid_distance_self (x1 y1 x2 y2 : Q) :
  (x1 == x2)%Q -> (y1 == y2)%Q ->
  exists d, grid_distance (JS.Num x1, JS.Num y1) (JS.Num x2, JS.Num y2) = JS.Num d /\ (d == 0)%Q.
Proof.
  intros Hx Hy. eexists. split; [reflexivity|].
  assert (Qabs (x1 - x2) == 0)%Q as ->.
  { setoid_replace (x1 - x2)%Q with 0%Q using relation Qeq by lra. reflexivity. }
  assert (Qabs (y1 - y2) == 0)%Q as ->.
  { setoid_replace (y1 - y2)%Q with 0%Q using relation Qeq by lra. reflexivity. }
  ring.
Qed.

Lemma conservation_witness :
  exists r,
    analyze grid_distance sample_now mixed_reports (JS.Num (3 # 2)) (JS.Num 4) = JS.Ok r /\
    map (fun p => (index p, report p)) (all_points r)
      ≡ₚ imap (fun i rep => (i, Some rep)) (List.filter has_valid_location mixed_reports) /\
    NoDup (map index (all_points r)) /\
    total_points (summary r) = sum_list (map size (clusters r)) + length (noise_points r).
Proof.
  eexists. split; [vm_compute; reflexivity|].
  apply (conservation grid_distance (Dbscan.labels grid_distance) sample_now
           mixed_reports (JS.Num (3 # 2)) (JS.Num 4)).
  vm_compute. reflexivity.
Defined.

Lemma filtering_correctness_witness :
  exists r,
    analyze grid_distance sample_now mixed_reports (JS.Num (3 # 2)) (JS.Num 4) = JS.Ok r /\
    (forall p rep, p ∈ all_points r -> report p = Some rep -> ~ lacks_position rep) /\
    (forall p, p ∈ all_points r -> exists rep, report p = Some rep /\ rep ∈ mixed_reports) /\
    exists counted ignored,
      mixed_reports ≡ₚ counted ++ ignored /\
      Forall (fun rep => ~ lacks_position rep) counted /\
      Forall lacks_position ignored /\
      total_points (summary r) = length counted.
Proof.
  eexists. split; [vm_compute; reflexivity|].
  apply (filtering_correctness grid_distance (Dbscan.labels grid_distance) sample_now
           mixed_reports (JS.Num (3 # 2)) (JS.Num 4)).
  vm_compute. reflexivity.
Defined.

Lemma radius_is_max_distance_witness :
  exists r c,
    analyze grid_distance sample_now chain_reports (JS.Num (3 # 2)) (JS.Num 4) = JS.Ok r /\
    clusters r !! 0 = Some c /\
    exists clng clat rad,
      center_longitude (center c) = JS.Num clng /\
      center_latitude (center c) = JS.Num clat /\
      radius_km c = JS.Num rad /\
      (0 <= rad)%Q /\
      (forall p, p ∈ points c ->
         exists d, grid_distance (JS.Num clng, JS.Num clat) (lng p, lat p) = JS.Num d /\ (d <= rad)%Q) /\
      (exists p d, p ∈ points c /\
         grid_distance (JS.Num clng, JS.Num clat) (lng p, lat p) = JS.Num d /\ (d == rad)%Q) /\
      (size c = 1 -> (rad == 0)%Q) /\
      ((rad == 0)%Q <->
       forall p, p ∈ points c ->
         exists d, grid_distance (JS.Num clng, JS.Num clat) (lng p, lat p) = JS.Num d /\ (d == 0)%Q).
Proof.
  eexists; eexists. split; [vm_compute; reflexivity|]. split; [reflexivity|].
  eapply (radius_is_max_distance grid_distance (Dbscan.labels grid_distance) sample_now
            grid_distance_nonneg grid_distance_self
            chain_reports (JS.Num (3 # 2)) (JS.Num 4)).
  - vm_compute. reflexivity.
  - left.
Defined.

(** Two reports taken at the same place form a cluster of two points whose
    radius is zero. *)
Lemma radius_zero_for_twins :
  ~ (forall r c rad,
       analyze grid_distance sample_now twin_reports (JS.Num 1) (JS.Num 2) = JS.Ok r ->
       c ∈ clusters r ->
       radius_km c = JS.Num rad ->
       (rad == 0)%Q ->
       size c = 1).
Proof.
  intros H.
  assert (exists r c rad,
            analyze grid_distance sample_now twin_reports (JS.Num 1) (JS.Num 2) = JS.Ok r /\
            c ∈ clusters r /\ radius_km c = JS.Num rad /\ (rad == 0)%Q /\ size c = 2)
    as (r & c & rad & Hr & Hc & Hrad & Hz & Hsz).
  { eexists; eexists; eexists. split; [vm_compute; reflexivity|].
    split; [left|]. split; [reflexivity|]. split; reflexivity. }
  specialize (H r c rad Hr Hc Hrad Hz). congruence.
Qed.

(** Four clusters, of 3, 2, 2 and 2 points, found in the order of their
    first points: the largest, found second, is listed first, and the three
    clusters of two points follow by increasing identifier. *)
Lemma clusters_sorted_stable_witness :
  exists r,
    analyze grid_distance sample_now tiered_reports (JS.Num (1 # 2)) (JS.Num 2) = JS.Ok r /\
    map (fun c => (cluster_id c, size c)) (clusters r)
      = [(1%Z, 3); (0%Z, 2); (2%Z, 2); (3%Z, 2)] /\
    StronglySorted size_desc (clusters r) /\
    (forall i a b, clusters r !! i = Some a -> clusters r !! S i = Some b -> size a >= size b) /\
    (forall l1 a l2 b l3,
       clusters r = l1 ++ a :: l2 ++ b :: l3 ->
       size a = size b ->
       before (head (points a)) (head (points b))) /\
    (forall i j a b,
       clusters r !! i = Some a -> clusters r !! j = Some b -> i < j ->
       size a = size b ->
       (cluster_id a < cluster_id b)%Z).
Proof.
  eexists. split; [vm_compute; reflexivity|]. split; [reflexivity|].
  match goal with
  | |- StronglySorted size_desc (clusters ?r) /\ _ =>
      destruct (clusters_sorted_stable grid_distance (Dbscan.labels grid_distance) sample_now
                  tiered_reports (JS.Num (1 # 2)) (JS.Num 2) r)
        as (Hsorted & Hnext & Hties & Hids)
  end.
  { vm_compute. reflexivity. }
  split; [exact Hsorted|]. split; [exact Hnext|]. split; [exact Hties|].
  apply Hids. intros a b Ha Hb Hlt.
  repeat (apply elem_of_cons in Ha as [->|Ha]);
    try (by apply elem_of_nil in Ha);
    repeat (apply elem_of_cons in Hb as [->|Hb]);
    try (by apply elem_of_nil in Hb);
    first [ exfalso; simpl in Hlt; lia | vm_compute; lia ].
Defined.

Lemma cluster_holds_core_point_witness :
  exists r c,
    analyze grid_distance sample_now chain_reports (JS.Num (3 # 2)) (JS.Num 4) = JS.Ok r /\
    clusters r !! 1 = Some c /\
    size c = length (points c) /\
    1 <= size c /\
    (exists p,
       p ∈ points c /\
       JS.geb (JS.of_nat (neighbours_in_result grid_distance (JS.Num (3 # 2)) r p))
              (JS.Num 4) = true /\
       forall q, q ∈ all_points r ->
                 JS.leb (grid_distance (coordinates p) (coordinates q)) (JS.Num (3 # 2)) = true ->
                 (0 <= clusterId q <= cluster_id c)%Z) /\
    (cluster_id c = 0%Z -> JS.geb (JS.of_nat (size c)) (JS.Num 4) = true).
Proof.
  eexists; eexists. split; [vm_compute; reflexivity|]. split; [reflexivity|].
  eapply (cluster_holds_core_point grid_distance sample_now chain_reports
            (JS.Num (3 # 2)) (JS.Num 4)).
  - vm_compute. reflexivity.
  - right. left.
Defined.

(** With [minPoints] 4, the second cluster found along the chain has three
    points: the point between the two core points went to the first one. *)
Lemma cluster_below_min_points :
  ~ (forall r c,
       analyze grid_distance sample_now chain_reports (JS.Num (3 # 2)) (JS.Num 4) = JS.Ok r ->
       c ∈ clusters r ->
       JS.geb (JS.of_nat (size c)) (JS.Num 4) = true).
Proof.
  intros H.
  assert (exists r c,
            analyze grid_distance sample_now chain_reports (JS.Num (3 # 2)) (JS.Num 4) = JS.Ok r /\
            c ∈ clusters r /\ size c = 3) as (r & c & Hr & Hc & Hsz).
  { eexists; eexists. split; [vm_compute; reflexivity|]. split; [right; left | reflexivity]. }
  specialize (H r c Hr Hc). rewrite Hsz in H. vm_compute in H. discriminate.
Qed.

Lemma noise_monotone_witness :
  exists r1 r2,
    analyze grid_distance sample_now chain_reports (JS.Num (3 # 2)) (JS.Num 5) = JS.Ok r1 /\
    analyze grid_distance sample_now chain_reports (JS.Num 3) (JS.Num 5) = JS.Ok r2 /\
    n_noise_points (summary r1) = 7 /\
    n_noise_points (summary r2) <= n_noise_points (summary r1) /\
    length (noise_points r2) <= length (noise_points r1).
Proof.
  eexists; eexists. split; [vm_compute; reflexivity|]. split; [vm_compute; reflexivity|].
  split; [reflexivity|].
  eapply (noise_monotone grid_distance sample_now sample_now chain_reports
            (JS.Num (3 # 2)) (JS.Num 3) (JS.Num 5)).
  - vm_compute. reflexivity.
  - vm_compute. reflexivity.
  - reflexivity.
Defined.




Lemma empty_input_error_witness :
  analyze grid_distance sample_now [sample_without_location] (JS.Num 5) (JS.Num 3)
    = JS.Throw no_location_error
  <-> (forall rep, rep ∈ [sample_without_location] -> ~ geolocated rep).
Proof.
  apply (empty_input_error grid_distance (Dbscan.labels grid_distance) sample_now
           [sample_without_location] (JS.Num 5) (JS.Num 3)).
  intros rep Hin. apply list_elem_of_singleton in Hin. rewrite Hin. exact I.
Defined.

Lemma invalid_parameters_rejected_witness :
  Handler.analyzeCompliance (fun _ => JS.Ok mixed_reports) (analyze grid_distance sample_now)
    {| Handler.maxDistance := JS.Num (-5); Handler.minPoints := JS.NaN;
       Handler.agentId := None |}
  = ({| Handler.http_status := 400; Handler.body := Handler.InvalidParameters |}, []).
Proof.
  apply invalid_parameters_rejected. left. reflexivity.
Defined.

(** The scan of the clustering meets its first core point at position 1 and
    opens cluster 0 there; the cluster opened later, at position 4, absorbs
    the report at position 0. Both have three points, and the one opened
    second is listed first. *)
Lemma later_cluster_listed_first :
  ~ (forall r i j a b,
       analyze grid_distance sample_now border_first_reports (JS.Num (3 # 2)) (JS.Num 3)
         = JS.Ok r ->
       clusters r !! i = Some a ->
       clusters r !! j = Some b ->
       i < j ->
       size a = size b ->
       (cluster_id a < cluster_id b)%Z).
Proof.
  intros H.
  assert (exists r a b,
            analyze grid_distance sample_now border_first_reports (JS.Num (3 # 2)) (JS.Num 3)
              = JS.Ok r /\
            clusters r !! 0 = Some a /\ clusters r !! 1 = Some b /\
            size a = size b /\ cluster_id a = 1%Z /\ cluster_id b = 0%Z)
    as (r & a & b & Hr & Ha & Hb & Hsz & Hida & Hidb).
  { eexists; eexists; eexists. split; [vm_compute; reflexivity|].
    repeat split; reflexivity. }
  specialize (H r 0 1 a b Hr Ha Hb (Nat.lt_0_1) Hsz). lia.
Qed.

(** ** The compliance statistics *)

Section Counting.

Lemma count_status_cons st rep reps :
  count_status st (rep :: reps)
    = (if has_status st rep then 1 else 0) + count_status st reps.
Proof. unfold count_status. simpl. by destruct (has_status st rep). Qed.

Lemma count_status_app st xs ys :
  count_status st (xs ++ ys) = count_status st xs + count_status st ys.
Proof. unfold count_status. by rewrite List.filter_app, length_app. Qed.

Lemma count_status_perm st xs ys :
  xs ≡ₚ ys -> count_status st xs = count_status st ys.
Proof. apply filter_length_perm. Qed.

Lemma count_unlisted_cons rep reps :
  count_unlisted (rep :: reps) = (if unlisted rep then 1 else 0) + count_unlisted reps.
Proof. unfold count_unlisted. simpl. by destruct (unlisted rep). Qed.

(** Every report has one of the three statuses of the enum or an unlisted
    one. *)
Lemma count_status_total reps :
  count_status COMPLIANT reps + count_status NON_COMPLIANT reps
    + count_status FRAUDULENT reps + count_unlisted reps = length reps.
Proof.
  induction reps as [|rep reps IH]; [done|].
  rewrite !count_status_cons, count_unlisted_cons. unfold has_status, unlisted. simpl.
  destruct (status rep); lia.
Qed.

Lemma reports_of_app xs ys : reports_of (xs ++ ys) = reports_of xs ++ reports_of ys.
Proof. apply omap_app. Qed.

Lemma reports_of_cons p pts :
  reports_of (p :: pts)
    = match report p with
      | Some rep => rep :: reports_of pts
      | None => reports_of pts
      end.
Proof. done. Qed.

Lemma cluster_compliance_counts stats pts s :
  cluster_compliance stats pts = JS.Ok s ->
  length (reports_of pts) = length pts /\
  compliant s = compliant stats + count_status COMPLIANT (reports_of pts) /\
  non_compliant s = non_compliant stats + count_status NON_COMPLIANT (reports_of pts) /\
  fraudulent s = fraudulent stats + count_status FRAUDULENT (reports_of pts).
Proof.
  revert stats. induction pts as [|p pts IH]; intros stats H; simpl in H.
  - injection H as <-. unfold reports_of, count_status. simpl. lia.
  - destruct (report p) as [rep|] eqn:Hrep; [|done].
    apply IH in H as (Hl & Hc & Hn & Hf).
    rewrite reports_of_cons, Hrep, !count_status_cons, length_cons, Hl, Hc, Hn, Hf.
    unfold has_status. destruct (status rep); simpl; lia.
Qed.

Lemma tally_overall_counts reps acc :
  total_compliant (fold_left tally_overall reps acc)
    = total_compliant acc + count_status COMPLIANT reps /\
  total_non_compliant (fold_left tally_overall reps acc)
    = total_non_compliant acc + count_status NON_COMPLIANT reps /\
  total_fraudulent (fold_left tally_overall reps acc)
    = total_fraudulent acc + count_status FRAUDULENT reps.
Proof.
  revert acc. induction reps as [|rep reps IH]; intros acc; simpl.
  - unfold count_status. simpl. lia.
  - destruct (IH (tally_overall acc rep)) as (Hc & Hn & Hf).
    rewrite Hc, Hn, Hf, !count_status_cons. unfold tally_overall, has_status.
    destruct (status rep); simpl; lia.
Qed.

Lemma imap_snd_some {A : Type} (l : list A) :
  forall g : nat -> nat, map snd (imap (fun i x => (g i, Some x)) l) = map Some l.
Proof.
  induction l as [|x l IH]; intros g; simpl; [done|].
  f_equal. apply (IH (g ∘ S)).
Qed.

Lemma omap_map_some {A : Type} (l : list A) : omap id (map Some l) = l.
Proof. induction l as [|x l IH]; [done|]. cbn. by f_equal. Qed.

Lemma omap_as_map {A B : Type} (f : A -> option B) (l : list A) :
  omap f l = omap id (map f l).
Proof. induction l as [|x l IH]; [done|]. cbn. destruct (f x); cbn; by f_equal. Qed.

Lemma count_concat st (f : ClusterInfo -> nat) (cs : list ClusterInfo) :
  Forall (fun c => f c = count_status st (reports_of (points c))) cs ->
  count_status st (reports_of (concat (map points cs))) = sum_list (map f cs).
Proof.
  induction 1 as [|c cs Hc _ IH]; simpl; [done|].
  by rewrite reports_of_app, count_status_app, IH, Hc.
Qed.

End Counting.

Section Statistics.

Variable distance : Position -> Position -> JS.number.
Variable dbscan_labels : list Position -> JS.number -> JS.number -> list (option Z).
Variable now : JS.ISOString.

Lemma cluster_info_stats entry c :
  cluster_info distance entry = JS.Ok c ->
  points c = snd entry /\
  size c = length (snd entry) /\
  cluster_compliance {| compliant := 0; non_compliant := 0; fraudulent := 0 |} (snd entry)
    = JS.Ok (compliance_stats c).
Proof.
  destruct entry as [k pts]. unfold cluster_info.
  intros (mr & _ & H)%bind_ok. apply bind_ok in H as (cs & Hcs & H).
  injection H as <-. done.
Qed.

Lemma cluster_counts reports epsKm minSamples r c :
  analyzeComplianceReports distance dbscan_labels now reports epsKm minSamples = JS.Ok r ->
  c ∈ clusters r ->
  length (reports_of (points c)) = size c /\
  compliant (compliance_stats c) = count_status COMPLIANT (reports_of (points c)) /\
  non_compliant (compliance_stats c) = count_status NON_COMPLIANT (reports_of (points c)) /\
  fraudulent (compliance_stats c) = count_status FRAUDULENT (reports_of (points c)).
Proof.
  intros Hr Hc.
  destruct (cluster_origin _ _ _ _ _ _ _ _ Hr Hc) as (features & k & _ & _ & Hinfo).
  apply cluster_info_stats in Hinfo as (Hpts & Hsize & Hstats). simpl in *.
  apply cluster_compliance_counts in Hstats as (Hl & Hco & Hn & Hf). simpl in *.
  rewrite Hpts, Hsize. done.
Qed.

Lemma analyze_summary_inv reports epsKm minSamples r :
  analyzeComplianceReports distance dbscan_labels now reports epsKm minSamples = JS.Ok r ->
  compliance_overview (summary r)
    = fold_left tally_overall (List.filter has_valid_location reports)
        {| total_compliant := 0; total_non_compliant := 0; total_fraudulent := 0 |} /\
  noise_percentage (summary r)
    = JS.mul (JS.div (JS.of_nat (n_noise_points (summary r)))
                     (JS.of_nat (total_points (summary r))))
             (JS.Num 100) /\
  timestamp r = now.
Proof.
  unfold analyzeComplianceReports.
  destruct (Nat.eqb_spec (length (List.filter has_valid_location reports)) 0) as [|Hne];
    [discriminate|].
  intros (features & Hf & H)%bind_ok.
  destruct (group_points _ _) as [cl noise].
  apply bind_ok in H as (infos & Hi & H). injection H as <-. done.
Qed.

Lemma reports_of_all_points reports epsKm minSamples r :
  analyzeComplianceReports distance dbscan_labels now reports epsKm minSamples = JS.Ok r ->
  reports_of (all_points r) ≡ₚ List.filter has_valid_location reports.
Proof.
  intros Hr. apply returned_pairs in Hr.
  apply (Permutation_map snd) in Hr.
  rewrite map_map, (imap_snd_some _ id) in Hr. simpl in Hr.
  unfold reports_of. rewrite omap_as_map.
  rewrite <- (omap_map_some (List.filter has_valid_location reports)).
  by apply omap_Permutation.
Qed.

(** X1: in every returned cluster, each counter of [compliance_stats] is the
    number of the cluster's points whose report has that status; a point
    whose report has another status is counted by none of them, so the
    three counters and the number of such points add up to the size of the
    cluster. *)
Theorem cluster_statistics_count reports epsKm minSamples r c :
  analyzeComplianceReports distance dbscan_labels now reports epsKm minSamples = JS.Ok r ->
  c ∈ clusters r ->
  compliant (compliance_stats c) = count_status COMPLIANT (reports_of (points c)) /\
  non_compliant (compliance_stats c) = count_status NON_COMPLIANT (reports_of (points c)) /\
  fraudulent (compliance_stats c) = count_status FRAUDULENT (reports_of (points c)) /\
  compliant (compliance_stats c) + non_compliant (compliance_stats c)
    + fraudulent (compliance_stats c) + count_unlisted (reports_of (points c)) = size c.
Proof.
  intros Hr Hc. destruct (cluster_counts _ _ _ _ _ Hr Hc) as (Hl & Hco & Hn & Hf).
  repeat split; try done. rewrite Hco, Hn, Hf, <- Hl. apply count_status_total.
Qed.

(** X2: each total of [compliance_overview] is the number of reports kept by
    the location filter that have that status; a kept report with another
    status is counted in [total_points] and in none of the totals, so the
    three totals and the number of such reports add up to [total_points]. *)
Theorem overview_counts reports epsKm minSamples r :
  analyzeComplianceReports distance dbscan_labels now reports epsKm minSamples = JS.Ok r ->
  let kept := List.filter has_valid_location reports in
  total_compliant (compliance_overview (summary r)) = count_status COMPLIANT kept /\
  total_non_compliant (compliance_overview (summary r)) = count_status NON_COMPLIANT kept /\
  total_fraudulent (compliance_overview (summary r)) = count_status FRAUDULENT kept /\
  total_compliant (compliance_overview (summary r))
    + total_non_compliant (compliance_overview (summary r))
    + total_fraudulent (compliance_overview (summary r)) + count_unlisted kept
    = total_points (summary r).
Proof.
  intros Hr kept.
  destruct (analyze_summary_inv _ _ _ _ Hr) as (Hov & _).
  apply analyze_inv in Hr as (features & infos & _ & _ & _ & _ & _ & Htotal & _).
  destruct (tally_overall_counts kept
              {| total_compliant := 0; total_non_compliant := 0; total_fraudulent := 0 |})
    as (Hc & Hn & Hf).
  fold kept in Hov. rewrite <- Hov in Hc, Hn, Hf. simpl in Hc, Hn, Hf.
  rewrite Hc, Hn, Hf, Htotal. repeat split; try done. apply count_status_total.
Qed.

(** X3: each total of [compliance_overview] is the sum of that counter over
    the returned clusters plus the number of noise points whose report has
    that status. *)
Theorem overview_adds_up reports epsKm minSamples r :
  analyzeComplianceReports distance dbscan_labels now reports epsKm minSamples = JS.Ok r ->
  total_compliant (compliance_overview (summary r))
    = sum_list (map (fun c => compliant (compliance_stats c)) (clusters r))
      + count_status COMPLIANT (reports_of (noise_points r)) /\
  total_non_compliant (compliance_overview (summary r))
    = sum_list (map (fun c => non_compliant (compliance_stats c)) (clusters r))
      + count_status NON_COMPLIANT (reports_of (noise_points r)) /\
  total_fraudulent (compliance_overview (summary r))
    = sum_list (map (fun c => fraudulent (compliance_stats c)) (clusters r))
      + count_status FRAUDULENT (reports_of (noise_points r)).
Proof.
  intros Hr.
  destruct (analyze_summary_inv _ _ _ _ Hr) as (Hov & _).
  destruct (tally_overall_counts (List.filter has_valid_location reports)
              {| total_compliant := 0; total_non_compliant := 0; total_fraudulent := 0 |})
    as (Hc & Hn & Hf).
  rewrite <- Hov in Hc, Hn, Hf. simpl in Hc, Hn, Hf.
  pose proof (reports_of_all_points _ _ _ _ Hr) as Hperm.
  assert (Hall : forall st (f : ClusterInfo -> nat),
            (forall c, c ∈ clusters r -> f c = count_status st (reports_of (points c))) ->
            count_status st (List.filter has_valid_location reports)
              = sum_list (map f (clusters r)) + count_status st (reports_of (noise_points r))).
  { intros st f Hfc. rewrite <- (count_status_perm st _ _ Hperm).
    unfold all_points. rewrite reports_of_app, count_status_app. f_equal.
    apply count_concat. apply Forall_forall. intros c Hin. by apply Hfc. }
  rewrite Hc, Hn, Hf.
  repeat split; apply Hall; intros c Hin;
    destruct (cluster_counts _ _ _ _ _ Hr Hin) as (_ & ? & ? & ?); done.
Qed.

End Statistics.

(** ** The summary, the identifiers and the order of the points *)

Section ListFacts.

Lemma noise_elem l p :
  p ∈ noise_of l <-> exists c, (c, p) ∈ l /\ is_noise_label c = true.
Proof.
  unfold noise_of. rewrite list_elem_of_fmap. split.
  - intros ([c p'] & -> & [Hin Hn]%list_elem_of_In%filter_In). simpl in *.
    exists c. split; [by apply list_elem_of_In | done].
  - intros (c & Hin & Hn). exists (c, p). split; [done|].
    apply list_elem_of_In, filter_In. split; [by apply list_elem_of_In | done].
Qed.

(** Points numbered by their position stay in increasing order of [index]
    through a filter. *)
Lemma indexed_filter_sorted (f : option Z * ClusterPoint -> bool) l :
  forall k,
    (forall i x, l !! i = Some x -> index (snd x) = k + i) ->
    StronglySorted lt (map index (map snd (List.filter f l))) /\
    Forall (fun n => k <= n) (map index (map snd (List.filter f l))).
Proof.
  induction l as [|x l IH]; intros k Hidx; simpl.
  - split; constructor.
  - destruct (IH (S k)) as [Hs Hf].
    { intros i y Hy. rewrite (Hidx (S i) y Hy). lia. }
    pose proof (Hidx 0 x eq_refl) as Hx. rewrite Nat.add_0_r in Hx.
    destruct (f x); simpl.
    + split.
      * constructor; [done|]. rewrite Hx. eapply Forall_impl; [exact Hf|].
        simpl. intros n Hn. lia.
      * constructor; [lia|]. eapply Forall_impl; [exact Hf|]. simpl. intros n Hn. lia.
    + split; [done|]. eapply Forall_impl; [exact Hf|]. simpl. intros n Hn. lia.
Qed.

Lemma Forall2_map_eq {A B C : Type} (f : A -> C) (g : B -> C) (xs : list A) (ys : list B) :
  Forall2 (fun x y => g y = f x) xs ys -> map g ys = map f xs.
Proof. induction 1; simpl; [done|]. by f_equal. Qed.

End ListFacts.

Section Summary.

Variable distance : Position -> Position -> JS.number.
Variable dbscan_labels : list Position -> JS.number -> JS.number -> list (option Z).
Variable now : JS.ISOString.



(** X5: the returned clusters have pairwise different identifiers, none of
    them -1; a cluster is not empty, its [size] is the length of its
    [points], and each of its points carries the cluster's identifier as
    [clusterId]; every noise point has [clusterId] -1. *)
Theorem cluster_ids_consistent reports epsKm minSamples r :
  analyzeComplianceReports distance dbscan_labels now reports epsKm minSamples = JS.Ok r ->
  NoDup (map cluster_id (clusters r)) /\
  (forall c, c ∈ clusters r ->
     cluster_id c <> (-1)%Z /\ points c <> [] /\ size c = length (points c) /\
     forall p, p ∈ points c -> clusterId p = cluster_id c) /\
  (forall p, p ∈ noise_points r -> clusterId p = (-1)%Z).
Proof.
  intros Hr. split; [|split].
  - apply analyze_inv in Hr as (features & infos & _ & _ & Hinfos & Hcl & _).
    simpl in *. rewrite Hcl.
    assert (map cluster_id (JS.sort by_size_desc infos) ≡ₚ map cluster_id infos) as ->
      by apply Permutation_map, sort_perm.
    apply infos_of_entries in Hinfos as (HF & _).
    assert (map cluster_id infos
            = map fst (map (fun k => (k, members k
                 (labelled_points (List.filter has_valid_location reports)
                    (clustersDbscan dbscan_labels features epsKm minSamples))))
                 (keys (labelled_points (List.filter has_valid_location reports)
                    (clustersDbscan dbscan_labels features epsKm minSamples))))) as ->.
    { apply Forall2_map_eq. eapply Forall2_impl; [exact HF|].
      simpl. intros e c Hc. by apply cluster_info_ok in Hc as (-> & _). }
    rewrite map_map. simpl. rewrite map_id. apply NoDup_keys.
  - intros c Hc.
    destruct (cluster_origin _ _ _ _ _ _ _ _ Hr Hc) as (features & k & Hfeat & Hk & Hinfo).
    apply cluster_info_ok in Hinfo as (Hid & Hpts & Hsize & _). simpl in *.
    rewrite Hid, Hpts, Hsize.
    split; [by apply elem_of_keys in Hk as [? _]|].
    split; [by apply members_nonempty|]. split; [done|].
    intros p [i Hi]%members_elem%list_elem_of_lookup.
    by destruct (labelled_lookup _ _ _ _ _ _ _ _ Hfeat Hi)
      as (_ & _ & _ & rep & loc & la & lo & _ & _ & _ & _ & _ & _ & _ & _ & ->).
  - intros p Hp.
    apply analyze_inv in Hr as (features & infos & _ & Hfeat & _ & _ & Hnoise & _).
    simpl in *. rewrite Hnoise in Hp.
    apply noise_elem in Hp as (c & [i Hi]%list_elem_of_lookup & Hn).
    destruct (labelled_lookup _ _ _ _ _ _ _ _ Hfeat Hi)
      as (_ & _ & _ & rep & loc & la & lo & _ & _ & _ & _ & _ & _ & _ & _ & ->).
    destruct c as [k|]; simpl in *; [|done]. by apply Z.eqb_eq in Hn.
Qed.

(** X6: the noise points, and the points of each cluster, are listed in
    strictly increasing [index], that is in the order of the filtered
    input. *)
Theorem points_in_input_order reports epsKm minSamples r :
  analyzeComplianceReports distance dbscan_labels now reports epsKm minSamples = JS.Ok r ->
  StronglySorted lt (map index (noise_points r)) /\
  forall c, c ∈ clusters r -> StronglySorted lt (map index (points c)).
Proof.
  intros Hr.
  assert (Hidx : forall features,
            JS.map_indexed to_feature (List.filter has_valid_location reports)
              = JS.Ok features ->
            forall i x,
              labelled_points (List.filter has_valid_location reports)
                (clustersDbscan dbscan_labels features epsKm minSamples) !! i = Some x ->
              index (snd x) = 0 + i).
  { intros features Hfeat i [c p] Hi.
    destruct (labelled_lookup _ _ _ _ _ _ _ _ Hfeat Hi) as (Hindex & _). exact Hindex. }
  split.
  - apply analyze_inv in Hr as (features & infos & _ & Hfeat & _ & _ & Hnoise & _).
    simpl in *. rewrite Hnoise.
    by apply (indexed_filter_sorted _ _ 0 (Hidx features Hfeat)).
  - intros c Hc.
    destruct (cluster_origin _ _ _ _ _ _ _ _ Hr Hc) as (features & k & Hfeat & Hk & Hinfo).
    apply cluster_info_ok in Hinfo as (_ & -> & _). simpl.
    by apply (indexed_filter_sorted _ _ 0 (Hidx features Hfeat)).
Qed.

(** X7: every returned point carries the report found at its [index] in the
    filtered input; its [lat] and [lng] are the latitude and longitude of
    that report's location, both numbers, and [coordinates] is the pair
    [(lng, lat)]. *)
Theorem point_matches_report reports epsKm minSamples r p :
  analyzeComplianceReports distance dbscan_labels now reports epsKm minSamples = JS.Ok r ->
  p ∈ all_points r ->
  exists rep loc,
    List.filter has_valid_location reports !! index p = Some rep /\
    report p = Some rep /\
    location rep = JS.Val loc /\
    latitude loc = JS.Val (lat p) /\
    longitude loc = JS.Val (lng p) /\
    coordinates p = (lng p, lat p) /\
    JS.isNaN (lat p) = false /\ JS.isNaN (lng p) = false.
Proof.
  intros Hr Hp.
  destruct (all_points_perm _ _ _ _ _ _ _ Hr) as (features & Hfeat & Hperm). simpl in *.
  rewrite Hperm in Hp.
  apply list_elem_of_fmap in Hp as ([c p'] & -> & [i Hi]%list_elem_of_lookup). simpl.
  destruct (labelled_lookup _ _ _ _ _ _ _ _ Hfeat Hi)
    as (Hindex & _ & _ & rep & loc & la & lo & Hrep & Hrp & Hloc & Hla & Hlo & Hlat & Hlng
        & Hco & _).
  exists rep, loc. rewrite Hindex, Hlat, Hlng. done.
Qed.

(** X8: the service hands the positions of the kept reports, in order, to
    the clustering with [epsKm] and [minSamples] unchanged, and groups by the
    labels it gets back: a point is noise exactly when its label is missing
    or -1, and belongs to a returned cluster exactly when its label is that
    cluster's identifier. *)
Theorem grouping_follows_labels reports epsKm minSamples r :
  analyzeComplianceReports distance dbscan_labels now reports epsKm minSamples = JS.Ok r ->
  exists positions,
    length positions = total_points (summary r) /\
    (forall p, p ∈ all_points r -> positions !! index p = Some (coordinates p)) /\
    let labels := dbscan_labels positions epsKm minSamples in
    (forall p, p ∈ noise_points r <->
       p ∈ all_points r /\ is_noise_label (mjoin (labels !! index p)) = true) /\
    (forall c p, c ∈ clusters r ->
       (p ∈ points c <->
        p ∈ all_points r /\ mjoin (labels !! index p) = Some (cluster_id c))).
Proof.
  intros Hr.
  destruct (all_points_perm _ _ _ _ _ _ _ Hr) as (features & Hfeat & Hperm).
  cbv zeta in Hfeat, Hperm.
  set (tagged := labelled_points (List.filter has_valid_location reports)
                   (clustersDbscan dbscan_labels features epsKm minSamples)) in *.
  assert (Hall : forall p, p ∈ all_points r <-> exists c, (c, p) ∈ tagged).
  { intros p. rewrite Hperm, list_elem_of_fmap. split.
    - intros ([c p'] & -> & Hin). by exists c.
    - intros (c & Hin). by exists (c, p). }
  assert (Hlab : forall c p, (c, p) ∈ tagged ->
            c = mjoin (dbscan_labels (map geometry_coordinates features) epsKm minSamples
                         !! index p) /\
            map geometry_coordinates features !! index p = Some (coordinates p)).
  { intros c p [i Hi]%list_elem_of_lookup.
    destruct (labelled_lookup _ _ _ _ _ _ _ _ Hfeat Hi) as (-> & Hc & Hpos & _). done. }
  exists (map geometry_coordinates features). split; [|split; [|split]].
  - apply map_from_ok in Hfeat as [Hlen _]. rewrite length_map, Hlen.
    by apply analyze_inv in Hr as (? & ? & _ & _ & _ & _ & _ & -> & _).
  - intros p (c & Hin)%Hall. by apply Hlab in Hin as [_ ?].
  - intros p.
    assert (noise_points r = noise_of tagged) as ->.
    { apply analyze_inv in Hr as (features' & ? & _ & Hfeat' & _ & _ & Hnoise & _).
      cbv zeta in Hfeat', Hnoise. rewrite Hfeat in Hfeat'. by injection Hfeat' as <-. }
    rewrite noise_elem, Hall. split.
    + intros (c & Hin & Hn). split; [eauto|]. by apply Hlab in Hin as [<- _].
    + intros [(c & Hin) Hn]. exists c. split; [done|].
      by apply Hlab in Hin as Hc; destruct Hc as [-> _].
  - intros c p Hc.
    destruct (cluster_origin _ _ _ _ _ _ _ _ Hr Hc) as (features' & k & Hfeat' & Hk & Hinfo).
    cbv zeta in Hfeat', Hk, Hinfo. rewrite Hfeat in Hfeat'. injection Hfeat' as <-.
    fold tagged in Hk, Hinfo.
    apply cluster_info_ok in Hinfo as (-> & -> & _). simpl.
    rewrite members_elem, Hall. split.
    + intros Hin. split; [eauto|]. by apply Hlab in Hin as Hl; destruct Hl as [<- _].
    + intros [(c' & Hin) Hl]. apply Hlab in Hin as Hc'. destruct Hc' as [Hc' _].
      rewrite Hl in Hc'. by subst c'.
Qed.

End Summary.

(** ** The errors of the service *)

Section ServiceErrors.

Variable distance : Position -> Position -> JS.number.
Variable dbscan_labels : list Position -> JS.number -> JS.number -> list (option Z).
Variable now : JS.ISOString.

Lemma to_feature_range i r m :
  to_feature i r = JS.Throw (JS.RangeError m) ->
  geolocated r /\ createdAt r = JS.InvalidDate.
Proof.
  unfold to_feature, geolocated.
  destruct (location r) as [| |loc] eqn:Hloc; simpl; try done.
  destruct (longitude loc) as [| |[|lo]] eqn:Hlo, (latitude loc) as [| |[|la]] eqn:Hla;
    simpl; try done.
  destruct (createdAt r); simpl; [done|]. intros _. split; [|done].
  by exists loc, la, lo.
Qed.

Lemma to_feature_geolocated i r :
  geolocated r ->
  (exists f, to_feature i r = JS.Ok f) \/
  (createdAt r = JS.InvalidDate /\
   to_feature i r = JS.Throw (JS.RangeError "Invalid time value")).
Proof.
  intros (loc & la & lo & Hloc & Hla & Hlo). unfold to_feature.
  rewrite Hloc. simpl. rewrite Hla, Hlo. simpl.
  destruct (createdAt r); simpl; [left; eauto | by right].
Qed.

Lemma max_radius_not_range cx cy m pts msg :
  max_radius distance cx cy m pts <> JS.Throw (JS.RangeError msg).
Proof.
  revert m. induction pts as [|p pts IH]; intros m; simpl; [done|].
  unfold turf_point.
  destruct (JS.isNaN cx || JS.isNaN cy); simpl; [done|].
  destruct (JS.isNaN (lng p) || JS.isNaN (lat p)); simpl; [done|]. apply IH.
Qed.

Lemma cluster_compliance_not_range stats pts msg :
  cluster_compliance stats pts <> JS.Throw (JS.RangeError msg).
Proof.
  revert stats. induction pts as [|p pts IH]; intros stats; simpl; [done|].
  destruct (report p); [apply IH | done].
Qed.

Lemma cluster_info_not_range entry msg :
  cluster_info distance entry <> JS.Throw (JS.RangeError msg).
Proof.
  destruct entry as [k pts]. unfold cluster_info.
  destruct (max_radius _ _ _ _ _) as [mr|e] eqn:Hmr; simpl.
  - destruct (cluster_compliance _ _) as [cs|e] eqn:Hcs; simpl; [done|].
    intros [= ->]. by apply cluster_compliance_not_range in Hcs.
  - intros [= ->]. by apply max_radius_not_range in Hmr.
Qed.

Lemma map_from_first_throw {A B : Type} (f : nat -> A -> JS.result B) (e : JS.exn)
    (l : list A) :
  forall i,
    (forall x j, x ∈ l -> (exists y, f j x = JS.Ok y) \/ f j x = JS.Throw e) ->
    (exists x, x ∈ l /\ forall j, f j x = JS.Throw e) ->
    JS.map_from f i l = JS.Throw e.
Proof.
  induction l as [|x l IH]; intros i Hall (x0 & Hin & Hthrow).
  - by apply elem_of_nil in Hin.
  - simpl. destruct (Hall x i) as [(y & Hy)|Hx]; [left| |by rewrite Hx].
    rewrite Hy. simpl.
    rewrite IH; [done| |].
    + intros x' j Hx'. apply Hall. by right.
    + apply elem_of_cons in Hin as [->|Hin].
      * rewrite Hthrow in Hy. discriminate.
      * by exists x0.
Qed.

Lemma analyze_nothing_kept reports epsKm minSamples :
  List.filter has_valid_location reports = [] ->
  analyzeComplianceReports distance dbscan_labels now reports epsKm minSamples
    = JS.Throw no_location_error.
Proof. intros H. unfold analyzeComplianceReports. by rewrite H. Qed.

(** X9: on reports whose coordinates have their declared type, the analysis
    fails with the [RangeError] of [toISOString] exactly when some report
    with a numeric latitude and longitude has an invalid creation date. *)
Theorem invalid_date_rejected reports epsKm minSamples :
  (forall rep, rep ∈ reports -> typed rep) ->
  analyzeComplianceReports distance dbscan_labels now reports epsKm minSamples
    = JS.Throw (JS.RangeError "Invalid time value")
  <-> exists rep, rep ∈ reports /\ geolocated rep /\ createdAt rep = JS.InvalidDate.
Proof.
  intros Htyped. split.
  - unfold analyzeComplianceReports.
    destruct (length (List.filter has_valid_location reports) =? 0); [done|].
    destruct (JS.map_indexed to_feature _) as [features|e] eqn:Hfeat; simpl.
    + destruct (group_points _ _) as [cl noise].
      destruct (JS.map_indexed _ cl) as [infos|e] eqn:Hinfos; simpl; [done|].
      intros [= ->]. apply map_from_throw in Hinfos as (j & x & _ & Hx).
      by apply cluster_info_not_range in Hx.
    + intros [= ->]. apply map_from_throw in Hfeat as (j & rep & Hrep & Hthrow).
      apply to_feature_range in Hthrow as [Hgeo Hdate].
      exists rep. split; [|done].
      apply list_elem_of_lookup_2, list_elem_of_In, filter_In in Hrep as [Hin _].
      by apply list_elem_of_In.
  - intros (rep & Hin & Hgeo & Hdate).
    assert (Hkept : rep ∈ List.filter has_valid_location reports).
    { apply list_elem_of_In, filter_In. split; [by apply list_elem_of_In|].
      by apply has_valid_location_spec, geolocated_kept. }
    unfold analyzeComplianceReports.
    destruct (Nat.eqb_spec (length (List.filter has_valid_location reports)) 0) as [Hz|_].
    { apply nil_length_inv in Hz. rewrite Hz in Hkept. by apply elem_of_nil in Hkept. }
    unfold JS.map_indexed. rewrite (map_from_first_throw to_feature
      (JS.RangeError "Invalid time value")); [done| |].
    + intros x j [Hx Hv]%list_elem_of_In%filter_In.
      destruct (to_feature_geolocated j x) as [?|[_ ?]]; [|by left|by right].
      apply kept_typed_geolocated; [by apply Htyped, list_elem_of_In|].
      by apply has_valid_location_spec.
    + exists rep. split; [done|]. intros j.
      destruct (to_feature_geolocated j rep Hgeo) as [(f & Hf)|[_ ?]]; [|done].
      unfold to_feature in Hf.
      destruct Hgeo as (loc & la & lo & Hloc & Hla & Hlo).
      rewrite Hloc in Hf. simpl in Hf. rewrite Hla, Hlo, Hdate in Hf. done.
Qed.

End ServiceErrors.

(** ** The paths of the handler *)

Section HandlerPaths.

Variable getMany : option string -> JS.result (list AnalyticsComplianceReport).
Variable engine :
  list AnalyticsComplianceReport -> JS.number -> JS.number -> JS.result AnalyticsResults.

(** The handler, case by case. *)
Lemma handler_cases q :
  (valid_parameters q = false /\
   Handler.analyzeCompliance getMany engine q
     = ({| Handler.http_status := 400; Handler.body := Handler.InvalidParameters |}, [])) \/
  (valid_parameters q = true /\ exists e,
   getMany (requested_agent q) = JS.Throw e /\
   Handler.analyzeCompliance getMany engine q
     = ({| Handler.http_status := 500;
           Handler.body := Handler.Failed (Handler.message e) |}, [])) \/
  (valid_parameters q = true /\
   getMany (requested_agent q) = JS.Ok [] /\
   Handler.analyzeCompliance getMany engine q
     = ({| Handler.http_status := 200; Handler.body := Handler.NoReports |}, [])) \/
  (valid_parameters q = true /\ exists reports,
   getMany (requested_agent q) = JS.Ok reports /\ reports <> [] /\
   let call := (List.filter Handler.has_numeric_location reports,
                Handler.parsed_maxDistance q, Handler.parsed_minPoints q) in
   match engine (List.filter Handler.has_numeric_location reports)
                (Handler.parsed_maxDistance q) (Handler.parsed_minPoints q) with
   | JS.Ok data =>
       Handler.analyzeCompliance getMany engine q
         = ({| Handler.http_status := 200;
               Handler.body :=
                 Handler.Completed data (Handler.parsed_maxDistance q)
                   (Handler.parsed_minPoints q)
                   (default "all"%string (requested_agent q)) |}, [call])
   | JS.Throw e =>
       Handler.analyzeCompliance getMany engine q
         = ({| Handler.http_status := 500;
               Handler.body := Handler.Failed (Handler.message e) |}, [call])
   end).
Proof.
  unfold Handler.analyzeCompliance, valid_parameters.
  fold (requested_agent q).
  destruct (_ || _); simpl; [by left | right].
  destruct (getMany (requested_agent q)) as [reports|e] eqn:Hget; [|left; eauto].
  right. destruct reports as [|rep reports]; [by left | right].
  split; [done|]. exists (rep :: reports). split; [done|]. split; [done|].
  cbv zeta. change (length (rep :: reports) =? 0) with false. cbv iota.
  by destruct (engine _ _ _).
Qed.

Lemma valid_parameters_spec q :
  valid_parameters q = true ->
  (exists d, Handler.parsed_maxDistance q = JS.Num d /\ (0 < d)%Q) /\
  (exists m, Handler.parsed_minPoints q = JS.Num m /\ (1 <= m)%Q).
Proof.
  unfold valid_parameters. intros [Hd Hm]%negb_true_iff%orb_false_iff.
  destruct (or_else_number (Handler.maxDistance q) 1000 eq_refl) as (d & Hpd).
  destruct (or_else_number (Handler.minPoints q) 3 eq_refl) as (m & Hpm).
  unfold Handler.parsed_maxDistance, Handler.parsed_minPoints in *.
  rewrite Hpd in *. rewrite Hpm in *. simpl in Hd, Hm.
  split; [exists d | exists m]; (split; [done|]).
  - apply Qnot_le_lt. intros Hle. apply Qle_bool_iff in Hle. congruence.
  - apply negb_false_iff, Qle_bool_iff in Hm. done.
Qed.

(** X10: the handler calls the engine at most once, and it does so exactly
    when the parameters pass the validation and the store returns at least
    one report; the call then carries the stored reports whose latitude and
    longitude have type [number], in stored order, and the parsed
    parameters. *)
Theorem engine_called_iff q :
  length (snd (Handler.analyzeCompliance getMany engine q)) <= 1 /\
  forall call,
    call ∈ snd (Handler.analyzeCompliance getMany engine q) <->
    valid_parameters q = true /\
    exists reports,
      getMany (requested_agent q) = JS.Ok reports /\ reports <> [] /\
      call = (List.filter Handler.has_numeric_location reports,
              Handler.parsed_maxDistance q, Handler.parsed_minPoints q).
Proof.
  destruct (handler_cases q)
    as [[Hv ->]|[(Hv & e & Hget & ->)|[(Hv & Hget & ->)|(Hv & reports & Hget & Hne & H)]]];
    simpl.
  - split; [lia|]. intros call. rewrite elem_of_nil, Hv. naive_solver.
  - split; [lia|]. intros call. rewrite elem_of_nil, Hget. naive_solver.
  - split; [lia|]. intros call. rewrite elem_of_nil, Hget. naive_solver.
  - assert (snd (Handler.analyzeCompliance getMany engine q)
            = [(List.filter Handler.has_numeric_location reports,
                Handler.parsed_maxDistance q, Handler.parsed_minPoints q)]) as ->.
    { by destruct (engine _ _ _); rewrite H. }
    split; [simpl; lia|]. intros call. rewrite list_elem_of_singleton, Hget.
    split; [intros ->; eauto | intros (_ & reports' & [= <-] & _ & ->); done].
Qed.

(** X11: every call the handler makes to the engine has a [maxDistance]
    greater than 0, a [minPoints] of at least 1, and only reports with a
    location whose latitude and longitude are of type [number]. *)
Theorem engine_call_checked q call :
  call ∈ snd (Handler.analyzeCompliance getMany engine q) ->
  (exists d, snd (fst call) = JS.Num d /\ (0 < d)%Q) /\
  (exists m, snd call = JS.Num m /\ (1 <= m)%Q) /\
  forall rep, rep ∈ fst (fst call) ->
    exists loc la lo,
      location rep = JS.Val loc /\ latitude loc = JS.Val la /\ longitude loc = JS.Val lo.
Proof.
  destruct (handler_cases q)
    as [[Hv ->]|[(Hv & e & Hget & ->)|[(Hv & Hget & ->)|(Hv & reports & Hget & Hne & H)]]];
    simpl; try by intros ?%elem_of_nil.
  assert (snd (Handler.analyzeCompliance getMany engine q)
          = [(List.filter Handler.has_numeric_location reports,
              Handler.parsed_maxDistance q, Handler.parsed_minPoints q)]) as ->.
  { by destruct (engine _ _ _); rewrite H. }
  intros ->%list_elem_of_singleton. simpl.
  destruct (valid_parameters_spec q Hv) as [Hd Hm].
  split; [done|]. split; [done|].
  intros rep [_ Hnum]%list_elem_of_In%filter_In.
  unfold Handler.has_numeric_location in Hnum.
  destruct (location rep) as [| |loc] eqn:Hloc; try done.
  destruct (latitude loc) as [| |la] eqn:Hla, (longitude loc) as [| |lo] eqn:Hlo; try done.
  by exists loc, la, lo.
Qed.

(** X12: the status of the response is 200, 400 or 500; it is 400 exactly
    when the parameters fail the validation, and 500 exactly when they pass
    it and the store query or the engine throws; the body then carries the
    message of the thrown [Error], or ["Unknown error"] when what was thrown
    is not an [Error]. *)
Theorem response_status q :
  let resp := fst (Handler.analyzeCompliance getMany engine q) in
  (Handler.http_status resp = 200 \/ Handler.http_status resp = 400
   \/ Handler.http_status resp = 500) /\
  (Handler.http_status resp = 400 <-> valid_parameters q = false) /\
  (Handler.http_status resp = 500 <->
   valid_parameters q = true /\
   exists e,
     Handler.body resp
       = Handler.Failed
           match e with
           | JS.Error msg | JS.TypeError msg | JS.RangeError msg => msg
           | JS.NonError _ => "Unknown error"
           end /\
     (getMany (requested_agent q) = JS.Throw e \/
      exists reports,
        getMany (requested_agent q) = JS.Ok reports /\ reports <> [] /\
        engine (List.filter Handler.has_numeric_location reports)
               (Handler.parsed_maxDistance q) (Handler.parsed_minPoints q) = JS.Throw e)).
Proof.
  destruct (handler_cases q)
    as [[Hv ->]|[(Hv & e & Hget & ->)|[(Hv & Hget & ->)|(Hv & reports & Hget & Hne & H)]]];
    simpl.
  - rewrite Hv. naive_solver.
  - rewrite Hv, Hget. split; [auto|]. split; [done|]. split; [|done].
    intros _. split; [done|]. exists e. auto.
  - rewrite Hv, Hget. naive_solver.
  - rewrite Hv, Hget.
    destruct (engine _ _ _) as [data|e] eqn:He; rewrite H; simpl.
    + split; [auto|]. split; [done|]. split; [done|].
      intros (_ & e & _ & [?|(reports' & [= <-] & _ & He')]); [done|]. congruence.
    + split; [auto|]. split; [done|]. split; [|done].
      intros _. split; [done|]. exists e. split; [done|]. right. eauto.
Qed.

(** X13: the handler answers with the completed-analysis body exactly when
    the parameters are valid, the store returns at least one report and the
    engine returns a result on the reports with numeric coordinates; the
    body holds that result, the parsed parameters, and the agent asked for,
    or ["all"] when none or an empty one was given. *)
Theorem completed_iff q data maxDistance minPoints agent :
  Handler.body (fst (Handler.analyzeCompliance getMany engine q))
    = Handler.Completed data maxDistance minPoints agent
  <-> valid_parameters q = true /\
      maxDistance = Handler.parsed_maxDistance q /\
      minPoints = Handler.parsed_minPoints q /\
      agent = default "all"%string (requested_agent q) /\
      exists reports,
        getMany (requested_agent q) = JS.Ok reports /\ reports <> [] /\
        engine (List.filter Handler.has_numeric_location reports)
               (Handler.parsed_maxDistance q) (Handler.parsed_minPoints q) = JS.Ok data.
Proof.
  destruct (handler_cases q)
    as [[Hv ->]|[(Hv & e & Hget & ->)|[(Hv & Hget & ->)|(Hv & reports & Hget & Hne & H)]]];
    simpl.
  - rewrite Hv. naive_solver.
  - rewrite Hget. naive_solver.
  - rewrite Hget. naive_solver.
  - rewrite Hget. destruct (engine _ _ _) as [data'|e] eqn:He; rewrite H; simpl.
    + split.
      * intros [= <- <- <- <-]. repeat split; try done. eauto.
      * intros (_ & -> & -> & -> & reports' & [= <-] & _ & He'). congruence.
    + split; [done|]. intros (_ & _ & _ & _ & reports' & [= <-] & _ & He'). congruence.
Qed.

(** X14: the handler answers with the fixed no-reports body exactly when the
    parameters are valid and the store returns no report. *)
Theorem no_reports_iff q :
  Handler.body (fst (Handler.analyzeCompliance getMany engine q)) = Handler.NoReports
  <-> valid_parameters q = true /\ getMany (requested_agent q) = JS.Ok [].
Proof.
  destruct (handler_cases q)
    as [[Hv ->]|[(Hv & e & Hget & ->)|[(Hv & Hget & ->)|(Hv & reports & Hget & Hne & H)]]];
    simpl.
  - rewrite Hv. naive_solver.
  - rewrite Hget. naive_solver.
  - rewrite Hget. naive_solver.
  - rewrite Hget. destruct (engine _ _ _); rewrite H; simpl; naive_solver.
Qed.

(** X17: each parameter is defaulted on its own: a [maxDistance] that is
    missing, not numeric or 0 becomes 1000 and a [minPoints] that is
    missing, not numeric or 0 becomes 3, while any other value is kept. A
    request whose [maxDistance] was defaulted is answered 400 exactly when
    its parsed [minPoints] is less than 1, and a request whose [minPoints]
    was defaulted exactly when its parsed [maxDistance] is 0 or less. *)
Theorem falsy_parameters_defaulted q :
  (JS.truthy (Handler.maxDistance q) = false ->
   Handler.parsed_maxDistance q = JS.Num 1000) /\
  (JS.truthy (Handler.maxDistance q) = true ->
   Handler.parsed_maxDistance q = Handler.maxDistance q) /\
  (JS.truthy (Handler.minPoints q) = false ->
   Handler.parsed_minPoints q = JS.Num 3) /\
  (JS.truthy (Handler.minPoints q) = true ->
   Handler.parsed_minPoints q = Handler.minPoints q) /\
  (JS.truthy (Handler.maxDistance q) = false ->
   (Handler.http_status (fst (Handler.analyzeCompliance getMany engine q)) = 400
    <-> JS.ltb (Handler.parsed_minPoints q) (JS.Num 1) = true)) /\
  (JS.truthy (Handler.minPoints q) = false ->
   (Handler.http_status (fst (Handler.analyzeCompliance getMany engine q)) = 400
    <-> JS.leb (Handler.parsed_maxDistance q) (JS.Num 0) = true)).
Proof.
  assert (Hstatus :
            Handler.http_status (fst (Handler.analyzeCompliance getMany engine q)) = 400
            <-> JS.leb (Handler.parsed_maxDistance q) (JS.Num 0)
                || JS.ltb (Handler.parsed_minPoints q) (JS.Num 1) = true).
  { destruct (handler_cases q)
      as [[Hv ->]|[(Hv & e & Hget & ->)|[(Hv & Hget & ->)|(Hv & reports & Hget & Hne & H)]]];
      unfold valid_parameters in Hv; simpl.
    - apply negb_false_iff in Hv. by rewrite Hv.
    - apply negb_true_iff in Hv. by rewrite Hv.
    - apply negb_true_iff in Hv. by rewrite Hv.
    - apply negb_true_iff in Hv. rewrite Hv.
      destruct (engine _ _ _); rewrite H; simpl; done. }
  unfold Handler.parsed_maxDistance, Handler.parsed_minPoints, JS.or_else in *.
  split; [by intros ->|]. split; [by intros ->|].
  split; [by intros ->|]. split; [by intros ->|]. split.
  - intros Hd. rewrite Hd in Hstatus. exact Hstatus.
  - intros Hp. rewrite Hp in Hstatus.
    change (JS.ltb (JS.Num 3) (JS.Num 1)) with false in Hstatus.
    by rewrite orb_false_r in Hstatus.
Qed.

End HandlerPaths.

(** ** The handler on top of the service *)

Section HandlerService.

Variable distance : Position -> Position -> JS.number.
Variable dbscan_labels : list Position -> JS.number -> JS.number -> list (option Z).
Variable now : JS.ISOString.
Variable getMany : option string -> JS.result (list AnalyticsComplianceReport).

Lemma analysed_spec rep : analysed rep = true <-> geolocated rep.
Proof.
  unfold analysed, Handler.has_numeric_location, has_valid_location, location_latitude,
    location_longitude, geolocated.
  split.
  - destruct (location rep) as [| |loc] eqn:Hloc; simpl; try done.
    destruct (latitude loc) as [| |[|la]] eqn:Hla, (longitude loc) as [| |[|lo]] eqn:Hlo;
      simpl; try done.
    intros _. by exists loc, la, lo.
  - intros (loc & la & lo & Hloc & Hla & Hlo). rewrite Hloc. simpl. by rewrite Hla, Hlo.
Qed.

Lemma filter_filter_and {A : Type} (f g : A -> bool) (l : list A) :
  List.filter g (List.filter f l) = List.filter (fun x => f x && g x) l.
Proof.
  induction l as [|x l IH]; simpl; [done|].
  destruct (f x); simpl; [|done]. destruct (g x); by rewrite IH.
Qed.

(** X15: with the service as engine, valid parameters and a store that
    returns reports none of which has a numeric latitude and longitude, the
    handler does not answer with the no-reports body: it calls the service
    once and answers 500 with the message of the empty-input error. *)
Theorem unlocated_store_fails q reports :
  valid_parameters q = true ->
  getMany (requested_agent q) = JS.Ok reports ->
  reports <> [] ->
  (forall rep, rep ∈ reports -> ~ geolocated rep) ->
  Handler.analyzeCompliance getMany (analyzeComplianceReports distance dbscan_labels now) q
  = ({| Handler.http_status := 500;
        Handler.body := Handler.Failed "No reports with valid location data found" |},
     [(List.filter Handler.has_numeric_location reports,
       Handler.parsed_maxDistance q, Handler.parsed_minPoints q)]).
Proof.
  intros Hv Hget Hne Hnone.
  destruct (handler_cases getMany (analyzeComplianceReports distance dbscan_labels now) q)
    as [[Hv' _]|[(_ & e & Hget' & _)|[(_ & Hget' & _)|(_ & reports' & Hget' & _ & H)]]];
    try congruence.
  rewrite Hget in Hget'. injection Hget' as <-. cbv zeta in H.
  rewrite analyze_nothing_kept in H; [done|].
  rewrite filter_filter_and. fold analysed.
  destruct (List.filter analysed reports) as [|rep l] eqn:Hf; [done|].
  assert (Hin : rep ∈ List.filter analysed reports) by (rewrite Hf; left).
  apply list_elem_of_In, filter_In in Hin as [Hin Ha].
  destruct (Hnone rep); [by apply list_elem_of_In | by apply analysed_spec].
Qed.

(** X16: with the service as engine, valid parameters and a store that
    returns at least one report with a numeric latitude and longitude, all
    such reports having a valid creation date, the handler answers 200 with
    a result whose [total_points] is the number of those reports and whose
    [clustering_params] are the parsed parameters. *)
Theorem located_store_analysed q reports :
  valid_parameters q = true ->
  getMany (requested_agent q) = JS.Ok reports ->
  (exists rep, rep ∈ reports /\ geolocated rep) ->
  (forall rep, rep ∈ reports -> geolocated rep -> exists ms, createdAt rep = JS.date ms) ->
  exists data,
    Handler.analyzeCompliance getMany (analyzeComplianceReports distance dbscan_labels now) q
    = ({| Handler.http_status := 200;
          Handler.body :=
            Handler.Completed data (Handler.parsed_maxDistance q)
              (Handler.parsed_minPoints q) (default "all"%string (requested_agent q)) |},
       [(List.filter Handler.has_numeric_location reports,
         Handler.parsed_maxDistance q, Handler.parsed_minPoints q)]) /\
    total_points (summary data) = length (List.filter analysed reports) /\
    clustering_params data
      = {| eps_km := Handler.parsed_maxDistance q;
           min_samples := Handler.parsed_minPoints q |}.
Proof.
  intros Hv Hget (rep0 & Hin0 & Hgeo0) Hdates.
  destruct (handler_cases getMany (analyzeComplianceReports distance dbscan_labels now) q)
    as [[Hv' _]|[(_ & e & Hget' & _)|[(_ & Hget' & _)|(_ & reports' & Hget' & _ & H)]]];
    try congruence.
  { rewrite Hget in Hget'. injection Hget' as ->. by apply elem_of_nil in Hin0. }
  rewrite Hget in Hget'. injection Hget' as <-. cbv zeta in H.
  destruct (analyze_total distance dbscan_labels now
              (List.filter analysed reports)
              (Handler.parsed_maxDistance q) (Handler.parsed_minPoints q))
    as (data & Hdata).
  { intros rep [Hin Ha]%list_elem_of_In%filter_In.
    apply analysed_spec in Ha as Hgeo. split.
    - destruct Hgeo as (loc & la & lo & Hloc & Hla & Hlo). unfold typed.
      rewrite Hloc, Hla, Hlo. done.
    - apply Hdates; [by apply list_elem_of_In | done]. }
  { exists rep0. split; [|done]. apply list_elem_of_In, filter_In.
    split; [by apply list_elem_of_In | by apply analysed_spec]. }
  unfold analysed in Hdata. rewrite <- filter_filter_and, analyze_filter_idem in Hdata.
  rewrite Hdata in H. exists data. split; [done|].
  apply analyze_inv in Hdata as (features & infos & _ & _ & _ & _ & _ & Htotal & _ & _ & Hparams).
  simpl in *. rewrite Htotal, filter_filter_and. done.
Qed.

End HandlerService.

(** ** The further statements at work on the sample data *)

(** A cluster of three points, one of them with a status outside the enum:
    the three counters add up to 2. *)
Lemma cluster_statistics_count_witness :
  exists r c,
    analyze grid_distance sample_now pending_reports (JS.Num 1) (JS.Num 2) = JS.Ok r /\
    clusters r !! 0 = Some c /\
    size c = 3 /\
    count_unlisted (reports_of (points c)) = 1 /\
    compliant (compliance_stats c) = count_status COMPLIANT (reports_of (points c)) /\
    non_compliant (compliance_stats c) = count_status NON_COMPLIANT (reports_of (points c)) /\
    fraudulent (compliance_stats c) = count_status FRAUDULENT (reports_of (points c)) /\
    compliant (compliance_stats c) + non_compliant (compliance_stats c)
      + fraudulent (compliance_stats c) + count_unlisted (reports_of (points c)) = size c.
Proof.
  eexists; eexists. split; [vm_compute; reflexivity|]. split; [reflexivity|].
  split; [reflexivity|]. split; [reflexivity|].
  eapply (cluster_statistics_count grid_distance (Dbscan.labels grid_distance) sample_now
            pending_reports (JS.Num 1) (JS.Num 2)).
  - vm_compute. reflexivity.
  - left.
Defined.

Lemma overview_counts_witness :
  exists r,
    analyze grid_distance sample_now pending_reports (JS.Num 1) (JS.Num 2) = JS.Ok r /\
    total_points (summary r) = 3 /\
    total_compliant (compliance_overview (summary r)) = 1 /\
    total_non_compliant (compliance_overview (summary r)) = 0 /\
    total_fraudulent (compliance_overview (summary r)) = 1 /\
    total_compliant (compliance_overview (summary r))
      + total_non_compliant (compliance_overview (summary r))
      + total_fraudulent (compliance_overview (summary r)) + 1
      = total_points (summary r).
Proof.
  eexists. split; [vm_compute; reflexivity|]. split; [reflexivity|].
  apply (overview_counts grid_distance (Dbscan.labels grid_distance) sample_now
           pending_reports (JS.Num 1) (JS.Num 2)).
  vm_compute. reflexivity.
Defined.

Lemma overview_adds_up_witness :
  exists r,
    analyze grid_distance sample_now mixed_reports (JS.Num (1 # 2)) (JS.Num 2) = JS.Ok r /\
    total_compliant (compliance_overview (summary r))
      = sum_list (map (fun c => compliant (compliance_stats c)) (clusters r))
        + count_status COMPLIANT (reports_of (noise_points r)) /\
    total_non_compliant (compliance_overview (summary r))
      = sum_list (map (fun c => non_compliant (compliance_stats c)) (clusters r))
        + count_status NON_COMPLIANT (reports_of (noise_points r)) /\
    total_fraudulent (compliance_overview (summary r))
      = sum_list (map (fun c => fraudulent (compliance_stats c)) (clusters r))
        + count_status FRAUDULENT (reports_of (noise_points r)).
Proof.
  eexists. split; [vm_compute; reflexivity|].
  apply (overview_adds_up grid_distance (Dbscan.labels grid_distance) sample_now
           mixed_reports (JS.Num (1 # 2)) (JS.Num 2)).
  vm_compute. reflexivity.
Defined.


Lemma cluster_ids_consistent_witness :
  exists r,
    analyze grid_distance sample_now mixed_reports (JS.Num (1 # 2)) (JS.Num 2) = JS.Ok r /\
    NoDup (map cluster_id (clusters r)) /\
    (forall c, c ∈ clusters r ->
       cluster_id c <> (-1)%Z /\ points c <> [] /\ size c = length (points c) /\
       forall p, p ∈ points c -> clusterId p = cluster_id c) /\
    (forall p, p ∈ noise_points r -> clusterId p = (-1)%Z).
Proof.
  eexists. split; [vm_compute; reflexivity|].
  apply (cluster_ids_consistent grid_distance (Dbscan.labels grid_distance) sample_now
           mixed_reports (JS.Num (1 # 2)) (JS.Num 2)).
  vm_compute. reflexivity.
Defined.

Lemma points_in_input_order_witness :
  exists r,
    analyze grid_distance sample_now mixed_reports (JS.Num (1 # 2)) (JS.Num 2) = JS.Ok r /\
    StronglySorted lt (map index (noise_points r)) /\
    forall c, c ∈ clusters r -> StronglySorted lt (map index (points c)).
Proof.
  eexists. split; [vm_compute; reflexivity|].
  apply (points_in_input_order grid_distance (Dbscan.labels grid_distance) sample_now
           mixed_reports (JS.Num (1 # 2)) (JS.Num 2)).
  vm_compute. reflexivity.
Defined.

Lemma point_matches_report_witness :
  exists r p,
    analyze grid_distance sample_now mixed_reports (JS.Num (1 # 2)) (JS.Num 2) = JS.Ok r /\
    all_points r !! 0 = Some p /\
    exists rep loc,
      List.filter has_valid_location mixed_reports !! index p = Some rep /\
      report p = Some rep /\
      location rep = JS.Val loc /\
      latitude loc = JS.Val (lat p) /\
      longitude loc = JS.Val (lng p) /\
      coordinates p = (lng p, lat p) /\
      JS.isNaN (lat p) = false /\ JS.isNaN (lng p) = false.
Proof.
  eexists; eexists. split; [vm_compute; reflexivity|]. split; [reflexivity|].
  eapply (point_matches_report grid_distance (Dbscan.labels grid_distance) sample_now
            mixed_reports (JS.Num (1 # 2)) (JS.Num 2)).
  - vm_compute. reflexivity.
  - left.
Defined.

Lemma invalid_date_rejected_witness :
  analyzeComplianceReports grid_distance (Dbscan.labels grid_distance) sample_now
    [sample_report "x1" COMPLIANT 0 121; sample_invalid_date] (JS.Num 5) (JS.Num 3)
  = JS.Throw (JS.RangeError "Invalid time value").
Proof.
  apply (invalid_date_rejected grid_distance (Dbscan.labels grid_distance) sample_now
           [sample_report "x1" COMPLIANT 0 121; sample_invalid_date] (JS.Num 5) (JS.Num 3)).
  - intros rep Hin.
    repeat (apply elem_of_cons in Hin as [->|Hin]; [simpl; split; done|]).
    by apply elem_of_nil in Hin.
  - exists sample_invalid_date. split; [right; left|]. split; [|done].
    eexists; eexists; eexists. repeat split; reflexivity.
Defined.

Lemma engine_call_checked_witness :
  (exists d, JS.Num (3 # 2) = JS.Num d /\ (0 < d)%Q) /\
  (exists m, JS.Num 4 = JS.Num m /\ (1 <= m)%Q) /\
  forall rep, rep ∈ chain_reports ->
    exists loc la lo,
      location rep = JS.Val loc /\ latitude loc = JS.Val la /\ longitude loc = JS.Val lo.
Proof.
  apply (engine_call_checked (fixed_store (sample_null_latitude :: chain_reports))
           (analyze grid_distance sample_now) sample_query
           (chain_reports, JS.Num (3 # 2), JS.Num 4)).
  vm_compute. left.
Defined.

Lemma unlocated_store_fails_witness :
  Handler.analyzeCompliance (fixed_store [sample_without_location; sample_nan_latitude])
    (analyzeComplianceReports grid_distance (Dbscan.labels grid_distance) sample_now)
    sample_query
  = ({| Handler.http_status := 500;
        Handler.body := Handler.Failed "No reports with valid location data found" |},
     [([sample_nan_latitude], JS.Num (3 # 2), JS.Num 4)]).
Proof.
  apply (unlocated_store_fails grid_distance (Dbscan.labels grid_distance) sample_now
           (fixed_store [sample_without_location; sample_nan_latitude]) sample_query
           [sample_without_location; sample_nan_latitude]).
  - reflexivity.
  - reflexivity.
  - discriminate.
  - intros rep Hin (loc & la & lo & Hloc & Hla & Hlo).
    repeat (apply elem_of_cons in Hin as [->|Hin];
            [simpl in Hloc;
             first [discriminate | injection Hloc as <-; simpl in *; discriminate]|]).
    by apply elem_of_nil in Hin.
Defined.

Lemma located_store_analysed_witness :
  exists data,
    Handler.analyzeCompliance
      (fixed_store (sample_without_location :: sample_nan_latitude :: chain_reports))
      (analyzeComplianceReports grid_distance (Dbscan.labels grid_distance) sample_now)
      sample_query
    = ({| Handler.http_status := 200;
          Handler.body := Handler.Completed data (JS.Num (3 # 2)) (JS.Num 4) "all" |},
       [(sample_nan_latitude :: chain_reports, JS.Num (3 # 2), JS.Num 4)]) /\
    total_points (summary data) = 7 /\
    clustering_params data = {| eps_km := JS.Num (3 # 2); min_samples := JS.Num 4 |}.
Proof.
  apply (located_store_analysed grid_distance (Dbscan.labels grid_distance) sample_now
           (fixed_store (sample_without_location :: sample_nan_latitude :: chain_reports))
           sample_query
           (sample_without_location :: sample_nan_latitude :: chain_reports)).
  - reflexivity.
  - reflexivity.
  - exists (sample_report "x1" COMPLIANT 0 121). split; [right; right; left|].
    eexists; eexists; eexists. repeat split; reflexivity.
  - intros rep Hin _. unfold chain_reports in Hin.
    repeat (apply elem_of_cons in Hin as [->|Hin]; [by exists 1736899200000%Z|]).
    by apply elem_of_nil in Hin.
Defined.

(** A request with [maxDistance=0] and [minPoints=4] is analysed with 1000
    and 4; with [maxDistance=0] and [minPoints=-1] it is answered 400. *)
Lemma falsy_parameters_defaulted_witness :
  Handler.parsed_maxDistance
    {| Handler.maxDistance := JS.Num 0; Handler.minPoints := JS.Num 4;
       Handler.agentId := None |} = JS.Num 1000 /\
  Handler.parsed_minPoints
    {| Handler.maxDistance := JS.Num 0; Handler.minPoints := JS.Num 4;
       Handler.agentId := None |} = JS.Num 4 /\
  Handler.http_status
    (fst (Handler.analyzeCompliance (fixed_store chain_reports)
            (analyze grid_distance sample_now)
            {| Handler.maxDistance := JS.Num 0; Handler.minPoints := JS.Num 4;
               Handler.agentId := None |})) <> 400 /\
  Handler.http_status
    (fst (Handler.analyzeCompliance (fixed_store chain_reports)
            (analyze grid_distance sample_now)
            {| Handler.maxDistance := JS.Num 0; Handler.minPoints := JS.Num (-1);
               Handler.agentId := None |})) = 400.
Proof.
  destruct (falsy_parameters_defaulted (fixed_store chain_reports)
              (analyze grid_distance sample_now)
              {| Handler.maxDistance := JS.Num 0; Handler.minPoints := JS.Num 4;
                 Handler.agentId := None |}) as (Hmax & _ & _ & Hmin & Hstatus & _).
  destruct (falsy_parameters_defaulted (fixed_store chain_reports)
              (analyze grid_distance sample_now)
              {| Handler.maxDistance := JS.Num 0; Handler.minPoints := JS.Num (-1);
                 Handler.agentId := None |}) as (_ & _ & _ & _ & Hstatus' & _).
  split; [by apply Hmax|]. split; [by apply Hmin|]. split.
  - intros H400. apply Hstatus in H400; [|reflexivity]. vm_compute in H400. discriminate.
  - apply Hstatus'; reflexivity.
Defined.

(** An engine that rejects with a string: the handler answers 500 with the
    message ["Unknown error"]. *)
Lemma response_status_witness :
  Handler.body
    (fst (Handler.analyzeCompliance (fixed_store chain_reports)
            (fun _ _ _ => JS.Throw (JS.NonError "Analysis failed")) sample_query))
  = Handler.Failed "Unknown error".
Proof.
  destruct (response_status (fixed_store chain_reports)
              (fun _ _ _ => JS.Throw (JS.NonError "Analysis failed")) sample_query)
    as (_ & _ & H500).
  destruct (proj1 H500 eq_refl) as (_ & e & Hbody & [Hstore|(reports & _ & _ & Hengine)]).
  - discriminate.
  - injection Hengine as <-. exact Hbody.
Defined.

Lemma grouping_follows_labels_witness :
  exists r,
    analyze grid_distance sample_now mixed_reports (JS.Num (1 # 2)) (JS.Num 2) = JS.Ok r /\
    exists positions,
      length positions = total_points (summary r) /\
      (forall p, p ∈ all_points r -> positions !! index p = Some (coordinates p)) /\
      let labels := Dbscan.labels grid_distance positions (JS.Num (1 # 2)) (JS.Num 2) in
      (forall p, p ∈ noise_points r <->
         p ∈ all_points r /\ is_noise_label (mjoin (labels !! index p)) = true) /\
      (forall c p, c ∈ clusters r ->
         (p ∈ points c <->
          p ∈ all_points r /\ mjoin (labels !! index p) = Some (cluster_id c))).
Proof.
  eexists. split; [vm_compute; reflexivity|].
  apply (grouping_follows_labels grid_distance (Dbscan.labels grid_distance) sample_now
           mixed_reports (JS.Num (1 # 2)) (JS.Num 2)).
  vm_compute. reflexivity.
Defined.
